(** * elastic-etcd: the join decision engine (package [join])

    A shallow embedding of [join/add.go] and [join/join.go] and the
    properties of the member adder, the existence heuristic and the join
    orchestrator.

    Conventions of the embedding.
    - Go's [int] is modelled by [Z]; [/] on [int] truncates towards zero and
      is [Z.quot].  The only arithmetic of the package is [size/2 + 1] and
      [(startedMembers+1)/2 + 1], neither of which can leave the 64-bit
      range (see [quorum_no_overflow]); counters are lengths of slices.
    - A Go slice that is compared with [nil] is an [option (list _)]:
      [None] is the nil slice, [Some []] an empty one.  Slices whose
      nil-ness is never observed are plain lists.
    - A Go result pair [(v, err)] whose value is only read when [err == nil]
      is a [result]; where the code inspects both components the pair is
      kept as a pair.
    - Everything outside the process (HTTP probes, the members API, the
      discovery service) is a transition on an abstract [World]; the
      package's functions are written in a state monad over it that also
      records the members-API calls issued by the adder's client and can
      end in a Go panic or, for the one unbounded loop, run out of fuel. *)

From stdpp Require Import gmap strings list pretty.
From Stdlib Require Import ZArith Ascii Lia Permutation.

Open Scope Z_scope.

(** ** Data *)

(** Errors of the package, one constructor per [errors.New]/[fmt.Errorf]
    site, plus the errors that come back from the outside. *)
Inductive error : Type :=
| ErrExternal (msg : string)
    (* an error returned by an HTTP call, the etcd client or the parser *)
| ErrNoDeadMember
    (* add.go:112 "did not find any dead member" *)
| ErrQuorumAtRisk (startedMembers healthyMembers futureQuorum : Z)
    (* add.go:145 "cannot add another member temporarily ..." *)
| ErrFullNoDead
    (* add.go:187 "full cluster and no dead member" *)
| ErrSizeUnavailable (cause : error)
    (* join.go:173 "cannot get discovery url cluster size: %v" *)
| ErrClusterDown
    (* join.go:192 "Cluster is down. A new node cannot join now." *)
| ErrJoinFailed (name urls : string) (cause : error).
    (* join.go:231 "unable to add node %q with peer urls %q ..." *)

Inductive result (A : Type) : Type :=
| Ok (a : A)
| Err (e : error).
Arguments Ok {A} a.
Arguments Err {A} e.

(** [client.Member] of the etcd client library. *)
Module client.
Record Member : Type := mkMember {
  ID : string;
  Name : string;
  PeerURLs : list string;
  ClientURLs : list string
}.
End client.

(** [discovery.Machine] ([node.DiscoveryNode] in add.go): a roster entry. *)
Module discovery.
(** Modelled from the spec: the struct is declared in the repository's
    discovery package, which is missing; the code reads its embedded
    [Member] and calls [NamedPeerURLs] on it. *)
Record Machine : Type := mkMachine {
  Member : client.Member
}.

(** Modelled from the spec: the method of the missing discovery package
    that "renders each peer URL as name=peer". *)
Definition NamedPeerURLs (n : Machine) : list string :=
  map (fun u => client.Name (Member n) +:+ "=" +:+ u)
      (client.PeerURLs (Member n)).

(** The part of a discovery response that [Join] reads:
    [res.Node.Value] and, for every child in [res.Node.Nodes], its [Key]
    and [Value]; both values are [*string]. *)
Record Child : Type := mkChild {
  Key : string;
  Value : option string
}.
Record Response : Type := mkResponse {
  NodeValue : option string;
  NodeNodes : list Child
}.
End discovery.

(** [type Strategy string] and its four constants. *)
Definition Strategy : Type := string.
Definition PreparedStrategy : Strategy := "prepared".
Definition PruneStrategy : Strategy := "prune".
Definition ReplaceStrategy : Strategy := "replace".
Definition AddStrategy : Strategy := "add".

(** [maxInt = int(^uint(0) >> 1)] on a 64-bit platform. *)
Definition maxInt : Z := 2 ^ 63 - 1.
Definition int_range (z : Z) : Prop := - 2 ^ 63 <= z <= maxInt.

Record EtcdConfig : Type := mkEtcdConfig {
  InitialCluster : list string;
  InitialClusterState : string;
  AdvertisePeerURLs : string;
  Discovery : string;
  ConfigName : string  (* the Go field [Name] *)
}.

Record MemberAdder : Type := mkMemberAdder {
  mapi : list string;  (* the members API, bound to these endpoints *)
  activeNodes : list discovery.Machine;
  strategy : Strategy;
  clientPort : Z;
  targetSize : Z
}.

(** ** The outside world *)

Record Env : Type := mkEnv {
  World : Type;
  (* ctxhttp.Get: the status code of the response, or an error *)
  http_Get : string -> World -> result Z * World;
  (* client.New: fails or yields a client for the endpoints *)
  client_New : list string -> option error;
  (* client.MembersAPI, for a client on the given endpoints *)
  mapi_List : list string -> World -> result (list client.Member) * World;
  mapi_Add : list string -> string -> World -> result client.Member * World;
  mapi_Remove : list string -> string -> World -> option error * World;
  mapi_Leader : list string -> World -> result (option client.Member) * World;
  (* discovery.Value url key *)
  discovery_Value : string -> string -> World -> result discovery.Response * World;
  (* discovery.NewDiscoveryNode token clientPort *)
  NewDiscoveryNode : string -> Z -> result discovery.Machine;
  (* strconv.ParseInt s 10 16, its error dropped *)
  ParseInt_10_16 : string -> Z;
  (* rafthttp.ProbingPrefix *)
  ProbingPrefix : string;
  (* the order in which the probing goroutines of the heuristic run: some
     rearrangement of the roster *)
  schedule : list discovery.Machine -> list discovery.Machine;
  schedule_perm : forall nodes, Permutation (schedule nodes) nodes
}.

(** Members-API calls issued through the adder's client. *)
Inductive Call : Type :=
| CallList
| CallAdd (peerURL : string)
| CallRemove (id : string).

Definition isAdd (c : Call) : bool :=
  match c with CallAdd _ => true | _ => false end.
Definition isRemove (c : Call) : bool :=
  match c with CallRemove _ => true | _ => false end.

(** The ids of the remove calls of a trace, in order. *)
Fixpoint removedIDs (t : list Call) : list string :=
  match t with
  | [] => []
  | CallRemove id :: t' => id :: removedIDs t'
  | _ :: t' => removedIDs t'
  end.

(** How a run ends. *)
Inductive Outcome (A : Type) : Type :=
| Done (a : A)
| Panic (msg : string)
| OutOfFuel.
Arguments Done {A} a.
Arguments Panic {A} msg.
Arguments OutOfFuel {A}.

Section Join.
Context (E : Env).

(** ** The monad *)

Definition M (A : Type) : Type := World E -> Outcome A * World E * list Call.

Definition ret {A} (a : A) : M A := fun w => (Done a, w, []).

Definition bind {A B} (m : M A) (k : A -> M B) : M B :=
  fun w =>
    match m w with
    | (Done a, w1, t1) =>
        match k a w1 with (r, w2, t2) => (r, w2, t1 ++ t2) end
    | (Panic msg, w1, t1) => (Panic msg, w1, t1)
    | (OutOfFuel, w1, t1) => (OutOfFuel, w1, t1)
    end.

Definition panic {A} (msg : string) : M A := fun w => (Panic msg, w, []).
Definition outOfFuel {A} : M A := fun w => (OutOfFuel, w, []).

(** An outside call that is not recorded, and one that is. *)
Definition call {A} (f : World E -> A * World E) : M A :=
  fun w => let (a, w') := f w in (Done a, w', []).
Definition callLogged {A} (c : Call) (f : World E -> A * World E) : M A :=
  fun w => let (a, w') := f w in (Done a, w', [c]).

Notation "'let*' x ':=' m 'in' k" := (bind m (fun x => k))
  (at level 10, x pattern, m at level 100, k at level 200).

(** ** join.go: probes *)

(** [alive]: true on the first peer URL whose probe answers 200. *)
Fixpoint aliveURLs (urls : list string) : M bool :=
  match urls with
  | [] => ret false
  | u :: rest =>
      let* resp := call (http_Get E (u +:+ ProbingPrefix E)) in
      match resp with
      | Ok status => if status =? 200 then ret true else aliveURLs rest
      | Err _ => aliveURLs rest
      end
  end.

Definition alive (m : client.Member) : M bool :=
  aliveURLs (client.PeerURLs m).

(** [active]: the pair [(bool, error)] it returns. *)
Definition active (m : client.Member) : M (bool * option error) :=
  match client_New E (client.ClientURLs m) with
  | Some err => ret (false, Some err)
  | None =>
      let* r := call (mapi_Leader E (client.ClientURLs m)) in
      match r with
      | Err err => ret (false, Some err)
      | Ok leader => ret (bool_decide (leader <> None), None)
      end
  end.

(** ** add.go *)

Definition NewMemberAdder (activeNodes : list discovery.Machine)
    (strategy : Strategy) (clientPort targetSize : Z) : result MemberAdder :=
  let activeUrls :=
    foldl (fun acc an => acc ++ client.ClientURLs (discovery.Member an))
          [] activeNodes in
  match client_New E activeUrls with
  | Some err => Err err
  | None => Ok (mkMemberAdder activeUrls activeNodes strategy clientPort targetSize)
  end.

(** The set [newUrls] built by the first loop of [findUnstartedMember]. *)
Definition newUrlsOf (urls : list string) : gset string :=
  foldl (fun newUrls u => {[u]} ∪ newUrls) ∅ urls.

(** The inner loop: does [m] have a subset of our peer urls? *)
Definition subsetOfNewUrls (newUrls : gset string) (m : client.Member) : bool :=
  forallb (fun u => bool_decide (u ∈ newUrls)) (client.PeerURLs m).

Fixpoint findUnstartedIn (newUrls : gset string) (members : list client.Member)
    : option client.Member :=
  match members with
  | [] => None
  | m :: rest =>
      if negb (String.eqb (client.Name m) "") then findUnstartedIn newUrls rest
      else if subsetOfNewUrls newUrls m then Some m
      else findUnstartedIn newUrls rest
  end.

Definition findUnstartedMember (members : list client.Member)
    (urls : list string) : option client.Member :=
  findUnstartedIn (newUrlsOf urls) members.

Section Adder.
Context (ma : MemberAdder).

Definition maList : M (result (list client.Member)) :=
  callLogged CallList (mapi_List E (mapi ma)).
Definition maAdd (u : string) : M (result client.Member) :=
  callLogged (CallAdd u) (mapi_Add E (mapi ma) u).
Definition maRemove (id : string) : M (option error) :=
  callLogged (CallRemove id) (mapi_Remove E (mapi ma) id).

(** The inner loop of [removeDeadMember] over the peer URLs of the
    member called [name]: [false] when it leaves by
    [continue searchForDead], [true] when it runs to its end. *)
Fixpoint looksDead (name : string) (urls : list string) : M bool :=
  match urls with
  | [] => ret true
  | u :: rest =>
      match NewDiscoveryNode E (name +:+ "=" +:+ u) (clientPort ma) with
      | Err _ => ret false
      | Ok n =>
          let* isAlive := alive (discovery.Member n) in
          if isAlive then
            let* r := active (discovery.Member n) in
            match r with
            | (_, Some _) => ret false
            | (true, None) => ret false
            | (false, None) => looksDead name rest
            end
          else looksDead name rest
      end
  end.

(** The loop [searchForDead]: the member left in [selected]. *)
Fixpoint searchForDead (members : list client.Member)
    : M (option client.Member) :=
  match members with
  | [] => ret None
  | m :: rest =>
      if (length (client.PeerURLs m) =? 0)%nat then ret (Some m)
      else
        let* dead := looksDead (client.Name m) (client.PeerURLs m) in
        if dead then ret (Some m) else searchForDead rest
  end.

Definition removeDeadMember (members : list client.Member)
    : M (option client.Member * option error) :=
  let* selected := searchForDead members in
  match selected with
  | None => ret (None, Some ErrNoDeadMember)
  | Some sel =>
      let* err := maRemove (client.ID sel) in
      match err with
      | Some e => ret (None, Some e)
      | None => ret (Some sel, None)
      end
  end.

(** The counting loop of [protectQuorum], from the counters so far. *)
Fixpoint countMembers (ms : list client.Member)
    (startedMembers healthyMembers : Z) : M (Z * Z) :=
  match ms with
  | [] => ret (startedMembers, healthyMembers)
  | m :: rest =>
      let startedMembers :=
        if negb (String.eqb (client.Name m) "") then startedMembers + 1
        else startedMembers in
      let* isAlive := alive m in
      if isAlive then
        let* r := active m in
        match r with
        | (true, None) => countMembers rest startedMembers (healthyMembers + 1)
        | _ => countMembers rest startedMembers healthyMembers
        end
      else countMembers rest startedMembers healthyMembers
  end.

Definition futureQuorumOf (startedMembers : Z) : Z :=
  Z.quot (startedMembers + 1) 2 + 1.

Definition protectQuorum : M (option error) :=
  let* r := maList in
  match r with
  | Err err => ret (Some err)
  | Ok ms =>
      let* c := countMembers ms 0 0 in
      let startedMembers := fst c in
      let healthyMembers := snd c in
      let futureQuorum := futureQuorumOf startedMembers in
      if healthyMembers <? futureQuorum then
        ret (Some (ErrQuorumAtRisk startedMembers healthyMembers futureQuorum))
      else ret None
  end.

(** The [for] loop of the prune case; it has no bound of its own. *)
Fixpoint pruneLoop (fuel : nat) (ms : list client.Member) : M unit :=
  match fuel with
  | O => outOfFuel
  | S fuel' =>
      let* r := removeDeadMember ms in
      match r with
      | (_, Some _) => ret tt
      | (None, None) => ret tt
      | (Some _, None) => pruneLoop fuel' ms
      end
  end.

(** The [switch ma.strategy] of [Add]: [Some err] when it returns
    [nil, err], [None] when control reaches the statement after it. *)
Definition applyStrategy (fuel : nat) (ms : list client.Member)
    : M (option error) :=
  if String.eqb (strategy ma) ReplaceStrategy then
    let* r := removeDeadMember ms in
    match r with
    | (_, Some err) => ret (Some err)
    | (None, None) =>
        if Z.of_nat (length ms) >=? targetSize ma then ret (Some ErrFullNoDead)
        else ret None
    | (Some _, None) => ret None
    end
  else if String.eqb (strategy ma) PruneStrategy then
    let* _ := pruneLoop fuel ms in ret None
  else ret None.

(** The tail of [Add] from the second [protectQuorum] on. *)
Definition guardedAdd (urls : list string) : M (result (list string)) :=
  let* q := protectQuorum in
  match q with
  | Some err => ret (Err err)
  | None =>
      match urls with
      | [] => panic "index out of range"
      | u0 :: _ =>
          let* r := maAdd u0 in
          match r with
          | Err err => ret (Err err)
          | Ok _ => ret (Ok [u0])
          end
      end
  end.

Definition Add (fuel : nat) (name : string) (urls : list string)
    : M (result (list string)) :=
  let* r := maList in
  match r with
  | Err err => ret (Err err)
  | Ok ms =>
      match findUnstartedMember ms urls with
      | Some unstarted =>
          let* q := protectQuorum in
          match q with
          | Some err => ret (Err err)
          | None => ret (Ok (client.PeerURLs unstarted))
          end
      | None =>
          let* s := applyStrategy fuel ms in
          match s with
          | Some err => ret (Err err)
          | None => guardedAdd urls
          end
      end
  end.
End Adder.

(** ** join.go: the existence heuristic *)

(** The body of one probing goroutine: does it reach the append? *)
Definition probeNode (n : discovery.Machine) : M bool :=
  let* isAlive := alive (discovery.Member n) in
  if isAlive then
    let* r := active (discovery.Member n) in
    ret (fst r)
  else ret false.

(** The fan-out and [wg.Wait()].  The goroutines share nothing but the
    world and the slice [activeNodes], which they append to under the
    lock; they are run here one after the other, in the order [order]
    chosen by the scheduler. *)
Fixpoint probeAll (order activeNodes : list discovery.Machine)
    : M (list discovery.Machine) :=
  match order with
  | [] => ret activeNodes
  | n :: rest =>
      let* healthy := probeNode n in
      probeAll rest (if healthy then activeNodes ++ [n] else activeNodes)
  end.

Definition quorumOf (size : Z) : Z := Z.quot size 2 + 1.

Definition clusterExistingHeuristic (size : Z)
    (nodes : option (list discovery.Machine))
    : M (option (list discovery.Machine) * option error) :=
  let quorum := quorumOf size in
  match nodes with
  | None => ret (None, None)
  | Some ns =>
      let* activeNodes := probeAll (schedule E ns) [] in
      if Z.of_nat (length ns) <? quorum then ret (None, None)
      else if Z.of_nat (length ns) =? size then ret (Some activeNodes, None)
      else if (0 <? length activeNodes)%nat then ret (Some activeNodes, None)
      else ret (None, None)
  end.

(** ** join.go: Join *)

(** The loop over [res.Node.Nodes]: the roster parsed so far is [nodes]. *)
Fixpoint parseRoster (children : list discovery.Child) (clientPort : Z)
    (nodes : list discovery.Machine) : M (list discovery.Machine) :=
  match children with
  | [] => ret nodes
  | nn :: rest =>
      (* [if nn.Value == nil] only logs; [*nn.Value] follows *)
      match discovery.Value nn with
      | None => panic "nil pointer dereference"
      | Some v =>
          match NewDiscoveryNode E v clientPort with
          | Err _ => parseRoster rest clientPort nodes
          | Ok n => parseRoster rest clientPort (nodes ++ [n])
          end
      end
  end.

(** The target size, from the [clusterSize] argument. *)
Definition targetSizeOf (discoveryURL : string) (clusterSize : Z)
    : M (result Z) :=
  if clusterSize <? 0 then
    let* r := call (discovery_Value E discoveryURL "/_config/size") in
    match r with
    | Err err => ret (Err (ErrSizeUnavailable err))
    | Ok res =>
        match discovery.NodeValue res with
        | None => panic "nil pointer dereference"
        | Some v => ret (Ok (ParseInt_10_16 E v))
        end
    end
  else if clusterSize =? 0 then ret (Ok maxInt)
  else ret (Ok clusterSize).

(** [strings.Split(s, ",")]. *)
Fixpoint splitComma (s : string) : list string :=
  match s with
  | EmptyString => [EmptyString]
  | String c rest =>
      if Ascii.eqb c ","%char then EmptyString :: splitComma rest
      else match splitComma rest with
           | h :: t => String c h :: t
           | [] => [String c EmptyString]
           end
  end.

Definition nameURL (name u : string) : string := name +:+ "=" +:+ u.

(** The three branches that follow the heuristic. *)
Definition joinDispatch (fuel : nat)
    (discoveryURL name initialAdvertisePeerURLs : string) (fresh : bool)
    (clientPort clusterSize : Z) (strategy : Strategy)
    (activeNodes : option (list discovery.Machine)) : M (result EtcdConfig) :=
  match activeNodes with
  | Some [] =>
      if fresh then ret (Err ErrClusterDown)
      else ret (Ok {| InitialCluster := [];
                      InitialClusterState := "existing";
                      AdvertisePeerURLs := initialAdvertisePeerURLs;
                      Discovery := "";
                      ConfigName := name |})
  | Some activeNodes =>
      let activeNamedURLs :=
        foldl (fun acc n => acc ++ discovery.NamedPeerURLs n) [] activeNodes in
      let advertisedURLs := splitComma initialAdvertisePeerURLs in
      let advertisedNamedURLs := map (nameURL name) advertisedURLs in
      match advertisedNamedURLs with
      | [] => panic "index out of range"
      | first :: _ =>
          let* r :=
            if negb (String.eqb strategy PreparedStrategy) && fresh then
              match NewMemberAdder activeNodes strategy clientPort clusterSize with
              | Err err => ret (Err err)
              | Ok adder =>
                  let* a := Add adder fuel name advertisedURLs in
                  match a with
                  | Err err =>
                      ret (Err (ErrJoinFailed name initialAdvertisePeerURLs err))
                  | Ok initialURLs => ret (Ok (map (nameURL name) initialURLs))
                  end
              end
            else ret (Ok [first]) in
          match r with
          | Err err => ret (Err err)
          | Ok initialNamedURLs =>
              ret (Ok {| InitialCluster := initialNamedURLs ++ activeNamedURLs;
                         InitialClusterState := "existing";
                         AdvertisePeerURLs := initialAdvertisePeerURLs;
                         Discovery := "";
                         ConfigName := name |})
          end
      end
  | None =>
      ret (Ok {| InitialCluster := [];
                 InitialClusterState := "new";
                 AdvertisePeerURLs := initialAdvertisePeerURLs;
                 Discovery := discoveryURL;
                 ConfigName := name |})
  end.

Definition Join (fuel : nat)
    (discoveryURL name initialAdvertisePeerURLs : string) (fresh : bool)
    (clientPort clusterSize : Z) (strategy : Strategy) : M (result EtcdConfig) :=
  let* r := call (discovery_Value E discoveryURL "/") in
  match r with
  | Err err => ret (Err err)
  | Ok res =>
      let* nodes := parseRoster (discovery.NodeNodes res) clientPort [] in
      let* sz := targetSizeOf discoveryURL clusterSize in
      match sz with
      | Err err => ret (Err err)
      | Ok clusterSize =>
          let* h := clusterExistingHeuristic clusterSize (Some nodes) in
          match h with
          | (_, Some err) => ret (Err err)
          | (activeNodes, None) =>
              joinDispatch fuel discoveryURL name initialAdvertisePeerURLs
                fresh clientPort clusterSize strategy activeNodes
          end
      end
  end.

(** ** Observations used to state the properties

    The number of started members of a listing, the health of each of
    its members as the probes report it, one member after the other, and
    the nodes of a roster that a round of probes finds healthy. *)

Definition isStarted (m : client.Member) : bool :=
  negb (String.eqb (client.Name m) "").

Definition startedCount (ms : list client.Member) : Z :=
  Z.of_nat (length (filter (fun m => isStarted m = true) ms)).

(** Does [m] probe alive and active? *)
Definition probesHealthy (m : client.Member) : M bool :=
  let* isAlive := alive m in
  if isAlive then
    let* r := active m in
    ret (match r with (true, None) => true | _ => false end)
  else ret false.

Fixpoint observeHealth (ms : list client.Member) : M (list bool) :=
  match ms with
  | [] => ret []
  | m :: rest =>
      let* h := probesHealthy m in
      let* hs := observeHealth rest in
      ret (h :: hs)
  end.

Definition healthyCount (obs : list bool) : Z :=
  Z.of_nat (length (filter (fun b => b = true) obs)).

Fixpoint healthyAmong (order : list discovery.Machine)
    : M (list discovery.Machine) :=
  match order with
  | [] => ret []
  | n :: rest =>
      let* h := probeNode n in
      let* hs := healthyAmong rest in
      ret (if h then n :: hs else hs)
  end.

(** An unstarted member whose peer URLs are all among [urls]. *)
Definition matchesUnstarted (urls : list string) (m : client.Member) : Prop :=
  client.Name m = "" /\ forall u, In u (client.PeerURLs m) -> In u urls.

(** The named peer URLs of a list of nodes, one node after the other. *)
Definition namedURLsOf (nodes : list discovery.Machine) : list string :=
  concat (map discovery.NamedPeerURLs nodes).

(** Does the string contain the separator [=]? *)
Fixpoint hasSeparator (s : string) : bool :=
  match s with
  | EmptyString => false
  | String c rest => Ascii.eqb c "="%char || hasSeparator rest
  end.

(** Is [s] a named URL [name=...]? *)
Definition namedBy (name s : string) : Prop :=
  exists u, s = nameURL name u.

(** [Add] up to the point where it calls [protectQuorum]: either it has
    returned already, or it stands before the guard with the unstarted
    member it found, if any. *)
Inductive BeforeGuard : Type :=
| Returned (r : result (list string))
| AtGuard (unstarted : option client.Member).

Definition beforeGuard (ma : MemberAdder) (fuel : nat) (urls : list string)
    : M BeforeGuard :=
  let* r := maList ma in
  match r with
  | Err err => ret (Returned (Err err))
  | Ok ms =>
      match findUnstartedMember ms urls with
      | Some unstarted => ret (AtGuard (Some unstarted))
      | None =>
          let* s := applyStrategy ma fuel ms in
          match s with
          | Some err => ret (Returned (Err err))
          | None => ret (AtGuard None)
          end
      end
  end.

(** A computation that always returns and issues no members-API call:
    the probes and everything built from them alone. *)
Definition silent {A} (m : M A) : Prop :=
  forall w, exists a w', m w = (Done a, w', []).

(** Every members-API call that [m] issues satisfies [P]. *)
Definition issuesOnly {A} (P : Call -> Prop) (m : M A) : Prop :=
  forall w, Forall P (m w).2.

(** The probes only read the world: a request to a probing URL and a
    leader query leave it as it was. *)
Definition readOnlyProbes : Prop :=
  (forall u w, (http_Get E u w).2 = w) /\
  (forall endpoints w, (mapi_Leader E endpoints w).2 = w).

(** Does the peer URL [u] answer its probe with status 200 in [w]? *)
Definition answers (w : World E) (u : string) : bool :=
  match (http_Get E (u +:+ ProbingPrefix E) w).1 with
  | Ok status => status =? 200
  | Err _ => false
  end.

(** Does a client on the member's client URLs name a leader in [w]? *)
Definition knowsLeader (w : World E) (m : client.Member) : bool :=
  match client_New E (client.ClientURLs m) with
  | Some _ => false
  | None =>
      match (mapi_Leader E (client.ClientURLs m) w).1 with
      | Ok (Some _) => true
      | _ => false
      end
  end.

(** A member is healthy in [w] when one of its peer URLs answers and its
    client names a leader. *)
Definition healthyIn (w : World E) (m : client.Member) : bool :=
  existsb (answers w) (client.PeerURLs m) && knowsLeader w m.

(** The leader query of the member's client succeeds and names nobody. *)
Definition leaderless (w : World E) (m : client.Member) : bool :=
  match client_New E (client.ClientURLs m) with
  | Some _ => false
  | None =>
      match (mapi_Leader E (client.ClientURLs m) w).1 with
      | Ok None => true
      | _ => false
      end
  end.

(** The peer URL [u] of the member called [name] counts as dead in [w]:
    it parses as a discovery node under that name, and the node does not
    answer its probe, or answers and names no leader. *)
Definition deadURL (port : Z) (w : World E) (name u : string) : bool :=
  match NewDiscoveryNode E (name +:+ "=" +:+ u) port with
  | Err _ => false
  | Ok n =>
      negb (existsb (answers w) (client.PeerURLs (discovery.Member n))) ||
      leaderless w (discovery.Member n)
  end.

(** A member all of whose peer URLs count as dead, if it has any. *)
Definition deadIn (port : Z) (w : World E) (m : client.Member) : bool :=
  forallb (deadURL port w (client.Name m)) (client.PeerURLs m).

(** The probes give the same answers in [w'] as in [w]. *)
Definition sameProbes (w w' : World E) : Prop :=
  (forall u, (http_Get E u w').1 = (http_Get E u w).1) /\
  (forall endpoints,
     (mapi_Leader E endpoints w').1 = (mapi_Leader E endpoints w).1).

(** Removing a member from the membership does not change what the
    probes answer. *)
Definition removalKeepsProbes : Prop :=
  forall endpoints id w, sameProbes w (mapi_Remove E endpoints id w).2.

End Join.

Arguments silent {E A} m.
Arguments issuesOnly {E A} P m.
Arguments ret {E A} a.
Arguments bind {E A B} m k.
Arguments panic {E A} msg.
Arguments outOfFuel {E A}.
Arguments call {E A} f.
Arguments callLogged {E A} c f.

(** ** A reference environment

    A small deterministic cluster against which the functions above can be
    run: the membership is a list that [Add] and [Remove] change, a peer
    URL answers its probe when it is listed in [answering], and a client
    URL names a leader when it is listed in [leaderKnown]. *)
Module Ref.

Record world : Type := mkWorld {
  members : list client.Member;
  answering : list string;
  leaderKnown : list string;
  roster : list discovery.Child;
  configSize : option string
}.

Definition probingPrefix : string := "/raft/probing".

Definition inb (x : string) (l : list string) : bool :=
  existsb (String.eqb x) l.

Definition httpGet (u : string) (w : world) : result Z * world :=
  if existsb (fun p => String.eqb u (p +:+ probingPrefix)) (answering w)
  then (Ok 200, w)
  else (Err (ErrExternal "connection refused"), w).

Definition clientNew (endpoints : list string) : option error :=
  match endpoints with
  | [] => Some (ErrExternal "client: no endpoints available")
  | _ => None
  end.

Definition listMembers (_ : list string) (w : world)
    : result (list client.Member) * world :=
  (Ok (members w), w).

Definition addMember (_ : list string) (u : string) (w : world)
    : result client.Member * world :=
  let m := client.mkMember ("id-" +:+ u) "" [u] [] in
  (Ok m, mkWorld (members w ++ [m]) (answering w) (leaderKnown w)
                 (roster w) (configSize w)).

Definition removeMember (_ : list string) (id : string) (w : world)
    : option error * world :=
  if existsb (fun m => String.eqb (client.ID m) id) (members w) then
    (None,
     mkWorld (filter (fun m => negb (String.eqb (client.ID m) id)) (members w))
             (answering w) (leaderKnown w) (roster w) (configSize w))
  else (Some (ErrExternal "client: member not found"), w).

Definition theLeader : client.Member :=
  client.mkMember "leader" "leader" [] [].

Definition leader (endpoints : list string) (w : world)
    : result (option client.Member) * world :=
  if existsb (fun e => inb e (leaderKnown w)) endpoints
  then (Ok (Some theLeader), w)
  else (Err (ErrExternal "client: etcd cluster is unavailable"), w).

Definition value (_ key : string) (w : world)
    : result discovery.Response * world :=
  if String.eqb key "/" then (Ok (discovery.mkResponse None (roster w)), w)
  else if String.eqb key "/_config/size"
  then (Ok (discovery.mkResponse (configSize w) []), w)
  else (Err (ErrExternal "key not found"), w).

(** The text before and after the first occurrence of [c]. *)
Fixpoint cut (c : ascii) (s : string) : option (string * string) :=
  match s with
  | EmptyString => None
  | String a rest =>
      if Ascii.eqb a c then Some (EmptyString, rest)
      else match cut c rest with
           | Some (h, t) => Some (String a h, t)
           | None => None
           end
  end.

(** Modelled from the spec: [discovery.NewDiscoveryNode], of the missing
    discovery package: "token is name=peerURL.  Fails when the =
    separator is missing, name is empty, or the URL is unparseable.
    Derives clientURL by replacing the peer URL's host:port with
    host:clientPort, preserving scheme and path."  A URL is taken to be
    [scheme://host[:port][/path]]. *)
Definition newDiscoveryNode (token : string) (clientPort : Z)
    : result discovery.Machine :=
  match cut "="%char token with
  | None => Err (ErrExternal "invalid format")
  | Some (EmptyString, _) => Err (ErrExternal "empty name")
  | Some (name, url) =>
      match cut ":"%char url with
      | Some (scheme, String "/" (String "/" hostPortPath)) =>
          let '(hostPort, path) :=
            match cut "/"%char hostPortPath with
            | Some (hp, p) => (hp, String "/" p)
            | None => (hostPortPath, EmptyString)
            end in
          let host :=
            match cut ":"%char hostPort with
            | Some (h, _) => h
            | None => hostPort
            end in
          match host with
          | EmptyString => Err (ErrExternal "invalid url")
          | _ =>
              Ok (discovery.mkMachine
                    (client.mkMember "" name [url]
                       [scheme +:+ "://" +:+ host +:+ ":" +:+
                        pretty clientPort +:+ path]))
          end
      | _ => Err (ErrExternal "invalid url")
      end
  end.

(** The value of a string of decimal digits, read after [acc]. *)
Fixpoint digits (s : string) (acc : Z) : option Z :=
  match s with
  | EmptyString => Some acc
  | String c rest =>
      let d := Z.of_nat (nat_of_ascii c) - 48 in
      if (0 <=? d) && (d <=? 9) then digits rest (10 * acc + d) else None
  end.

(** [strconv.ParseInt s 10 16] with its error dropped: 0 on a syntax
    error, the nearest 16-bit value on a range error. *)
Definition parseInt16 (s : string) : Z :=
  let '(neg, body) :=
    match s with
    | String "-" rest => (true, rest)
    | String "+" rest => (false, rest)
    | _ => (false, s)
    end in
  match body with
  | EmptyString => 0
  | _ =>
      match digits body 0 with
      | None => 0
      | Some n =>
          if neg then (if n <=? 32768 then - n else -32768)
          else (if n <=? 32767 then n else 32767)
      end
  end.

Definition env : Env :=
  mkEnv world httpGet clientNew listMembers addMember removeMember leader value
        newDiscoveryNode parseInt16 probingPrefix (fun nodes => nodes)
        (fun nodes => Permutation_refl nodes).

(** A member named [name] at host [name], and the world's view of it. *)
Definition peerOf (name : string) : string := "http://" +:+ name +:+ ":2380".
Definition clientOf (name : string) : string := "http://" +:+ name +:+ ":2379".
Definition member (name : string) : client.Member :=
  client.mkMember ("id-" +:+ name) name [peerOf name] [clientOf name].
Definition entry (name : string) : discovery.Child :=
  discovery.mkChild ("/" +:+ name) (Some (name +:+ "=" +:+ peerOf name)).

(** A cluster with the given members of which [healthy] are up and know
    the leader; the discovery roster lists [registered]. *)
Definition cluster (ms : list client.Member) (healthy registered : list string)
    : world :=
  mkWorld ms (map peerOf healthy) (map clientOf healthy)
          (map entry registered) None.

(** The roster entry of [name] as [newDiscoveryNode] parses it. *)
Definition machine (name : string) : discovery.Machine :=
  discovery.mkMachine (client.mkMember "" name [peerOf name] [clientOf name]).

(** A member entry that is reserved and not started. *)
Definition unstarted (id : string) (peers : list string) : client.Member :=
  client.mkMember id "" peers [].

(** The adder that [Join] builds from the active nodes [active]. *)
Definition adder (active : list string) (s : Strategy) (size : Z) : MemberAdder :=
  mkMemberAdder (map clientOf active) (map machine active) s 2379 size.

End Ref.

(** * Properties *)

Section Properties.
Context (E : Env).
Implicit Types (w : World E) (ma : MemberAdder).

(** ** Running the monad *)

Lemma bind_done {A B} (m : M E A) (k : A -> M E B) w a w1 t1 :
  m w = (Done a, w1, t1) ->
  bind m k w = match k a w1 with (r, w2, t2) => (r, w2, t1 ++ t2) end.
Proof. intros H. unfold bind. rewrite H. reflexivity. Qed.

Lemma bind_inv {A B} (m : M E A) (k : A -> M E B) w b w2 t :
  bind m k w = (Done b, w2, t) ->
  exists a w1 t1 t2,
    m w = (Done a, w1, t1) /\ k a w1 = (Done b, w2, t2) /\ t = t1 ++ t2.
Proof.
  unfold bind. destruct (m w) as [[[a| |] w1] t1]; try discriminate.
  destruct (k a w1) as [[r w2'] t2] eqn:Hk. intros [= -> -> <-].
  exists a, w1, t1, t2. auto.
Qed.

Lemma silent_ret {A} (a : A) : silent (ret (E:=E) a).
Proof. intros w. exists a, w. reflexivity. Qed.

Lemma silent_call {A} (f : World E -> A * World E) : silent (call f).
Proof. intros w. unfold call. destruct (f w) as [a w']. eauto. Qed.

Lemma silent_bind {A B} (m : M E A) (k : A -> M E B) :
  silent m -> (forall a, silent (k a)) -> silent (bind m k).
Proof.
  intros Hm Hk w. destruct (Hm w) as (a & w1 & Ha).
  destruct (Hk a w1) as (b & w2 & Hb).
  exists b, w2. rewrite (bind_done _ _ _ _ _ _ Ha), Hb. reflexivity.
Qed.

Lemma aliveURLs_silent urls : silent (aliveURLs E urls).
Proof.
  induction urls as [|u rest IH]; simpl; [apply silent_ret|].
  apply silent_bind; [apply silent_call|].
  intros [status|e]; [|exact IH].
  destruct (status =? 200); [apply silent_ret | exact IH].
Qed.

Lemma alive_silent m : silent (alive E m).
Proof. apply aliveURLs_silent. Qed.

Lemma active_silent m : silent (active E m).
Proof.
  unfold active. destruct (client_New E _); [apply silent_ret|].
  apply silent_bind; [apply silent_call|].
  intros [leader|e]; apply silent_ret.
Qed.

Lemma probesHealthy_silent m : silent (probesHealthy E m).
Proof.
  unfold probesHealthy. apply silent_bind; [apply alive_silent|].
  intros [|]; [|apply silent_ret].
  apply silent_bind; [apply active_silent|]. intros r. apply silent_ret.
Qed.

Lemma probeNode_silent n : silent (probeNode E n).
Proof.
  unfold probeNode. apply silent_bind; [apply alive_silent|].
  intros [|]; [|apply silent_ret].
  apply silent_bind; [apply active_silent|]. intros r. apply silent_ret.
Qed.

Lemma observeHealth_silent ms : silent (observeHealth E ms).
Proof.
  induction ms as [|m rest IH]; simpl; [apply silent_ret|].
  apply silent_bind; [apply probesHealthy_silent|]. intros h.
  apply silent_bind; [exact IH|]. intros hs. apply silent_ret.
Qed.

Lemma healthyAmong_silent order : silent (healthyAmong E order).
Proof.
  induction order as [|n rest IH]; simpl; [apply silent_ret|].
  apply silent_bind; [apply probeNode_silent|]. intros h.
  apply silent_bind; [exact IH|]. intros hs. apply silent_ret.
Qed.

Lemma looksDead_silent ma name urls : silent (looksDead E ma name urls).
Proof.
  induction urls as [|u rest IH]; simpl; [apply silent_ret|].
  destruct (NewDiscoveryNode E _ _) as [n|e]; [|apply silent_ret].
  apply silent_bind; [apply alive_silent|].
  intros [|]; [|exact IH].
  apply silent_bind; [apply active_silent|].
  intros [[|] [e|]]; first [apply silent_ret | exact IH].
Qed.

Lemma searchForDead_silent ma members : silent (searchForDead E ma members).
Proof.
  induction members as [|m rest IH]; simpl; [apply silent_ret|].
  destruct (length (client.PeerURLs m) =? 0)%nat; [apply silent_ret|].
  apply silent_bind; [apply looksDead_silent|].
  intros [|]; [apply silent_ret | exact IH].
Qed.

Lemma countMembers_silent ms s h : silent (countMembers E ms s h).
Proof.
  revert s h. induction ms as [|m rest IH]; intros s h; simpl;
    [apply silent_ret|].
  apply silent_bind; [apply alive_silent|].
  intros [|]; [|apply IH].
  apply silent_bind; [apply active_silent|].
  intros [[|] [e|]]; apply IH.
Qed.

Lemma probeAll_silent order acc : silent (probeAll E order acc).
Proof.
  revert acc. induction order as [|n rest IH]; intros acc; simpl;
    [apply silent_ret|].
  apply silent_bind; [apply probeNode_silent|]. intros h. apply IH.
Qed.

(** ** Traces *)

Lemma issuesOnly_ret {A} P (a : A) : issuesOnly P (ret (E:=E) a).
Proof. intros w. constructor. Qed.

Lemma issuesOnly_panic {A} P msg : issuesOnly P (panic (E:=E) (A:=A) msg).
Proof. intros w. constructor. Qed.

Lemma issuesOnly_outOfFuel {A} P : issuesOnly P (outOfFuel (E:=E) (A:=A)).
Proof. intros w. constructor. Qed.

Lemma issuesOnly_silent {A} P (m : M E A) : silent m -> issuesOnly P m.
Proof. intros H w. destruct (H w) as (a & w' & ->). constructor. Qed.

Lemma issuesOnly_call {A} P (f : World E -> A * World E) :
  issuesOnly P (call f).
Proof. apply issuesOnly_silent, silent_call. Qed.

Lemma issuesOnly_callLogged {A} (P : Call -> Prop) c
    (f : World E -> A * World E) :
  P c -> issuesOnly P (callLogged c f).
Proof.
  intros Hc w. unfold callLogged. destruct (f w) as [a w']. simpl.
  constructor; [exact Hc | constructor].
Qed.

Lemma issuesOnly_bind {A B} P (m : M E A) (k : A -> M E B) :
  issuesOnly P m -> (forall a, issuesOnly P (k a)) -> issuesOnly P (bind m k).
Proof.
  intros Hm Hk w. unfold bind. specialize (Hm w).
  destruct (m w) as [[[a| |] w1] t1]; simpl in *; try exact Hm.
  specialize (Hk a w1). destruct (k a w1) as [[r w2] t2]. simpl in *.
  apply Forall_app. split; assumption.
Qed.

Lemma issuesOnly_nothing {A} (m : M E A) w :
  issuesOnly (fun _ => False) m -> (m w).2 = [].
Proof.
  intros H. specialize (H w). destruct ((m w).2) as [|c t]; [reflexivity|].
  inversion H as [|? ? Hc _]. destruct Hc.
Qed.

(** ** The existence heuristic *)

(** The slice the goroutines fill is what was there plus the nodes that
    probe healthy, in the order in which they ran. *)
Lemma probeAll_healthyAmong order : forall acc w,
  exists hs w',
    healthyAmong E order w = (Done hs, w', []) /\
    probeAll E order acc w = (Done (acc ++ hs), w', []).
Proof.
  induction order as [|n rest IH]; intros acc w; simpl.
  - exists [], w. rewrite app_nil_r. split; reflexivity.
  - destruct (probeNode_silent n w) as (h & w1 & Hn).
    rewrite !(bind_done _ _ _ _ _ _ Hn).
    destruct (IH (if h then acc ++ [n] else acc) w1) as (hs & w2 & Hh & Hp).
    exists (if h then n :: hs else hs), w2.
    rewrite (bind_done _ _ _ _ _ _ Hh), Hp. simpl.
    destruct h; [rewrite <- app_assoc|]; split; reflexivity.
Qed.

(** Only nodes that were probed are reported healthy. *)
Lemma healthyAmong_sublist order : forall w hs w' t,
  healthyAmong E order w = (Done hs, w', t) -> sublist hs order.
Proof.
  induction order as [|n rest IH]; intros w hs w' t; simpl.
  - intros [= <- _ _]. constructor.
  - intros H. apply bind_inv in H as (h & w1 & t1 & t2 & _ & H & _).
    apply bind_inv in H as (hs' & w2 & t3 & t4 & Hh & H & _).
    injection H as <- _ _. apply IH in Hh.
    destruct h; [apply sublist_skip | apply sublist_cons]; exact Hh.
Qed.

Lemma quorumOf_zero : quorumOf 0 = 1.
Proof. reflexivity. Qed.

(** The arithmetic of the package stays within Go's [int]. *)
Lemma quorum_no_overflow size :
  int_range size -> int_range (quorumOf size).
Proof.
  unfold int_range, quorumOf, maxInt.
  change (2 ^ 63) with 9223372036854775808. intros [Hlo Hhi].
  destruct (Z.le_gt_cases 0 size) as [Hpos|Hneg].
  - rewrite Z.quot_div_nonneg by lia. Z.div_mod_to_equations. lia.
  - assert (Z.quot size 2 = - (Z.quot (- size) 2)) as ->.
    { rewrite Z.quot_opp_l by lia. lia. }
    rewrite Z.quot_div_nonneg by lia. Z.div_mod_to_equations. lia.
Qed.

Lemma futureQuorum_no_overflow ms :
  Z.of_nat (length ms) < maxInt ->
  int_range (futureQuorumOf (startedCount ms)).
Proof.
  unfold int_range, futureQuorumOf, startedCount, maxInt. intros Hlen.
  pose proof (length_filter (fun m => isStarted m = true) ms) as Hle.
  set (s := Z.of_nat (length (filter (fun m => isStarted m = true) ms))) in *.
  assert (0 <= s <= Z.of_nat (length ms)) as Hs by (unfold s; lia).
  rewrite Z.quot_div_nonneg by lia.
  clearbody s. clear Hle. change (2 ^ 63) with 9223372036854775808 in *.
  Z.div_mod_to_equations. lia.
Qed.


Lemma healthyAmong_roster roster w hs w' t n :
  healthyAmong E (schedule E roster) w = (Done hs, w', t) ->
  In n hs -> In n roster.
Proof.
  intros H Hn. apply healthyAmong_sublist in H.
  apply (Permutation_in _ (schedule_perm E roster)).
  apply list_elem_of_In. eapply elem_of_sublist; [|exact H].
  apply list_elem_of_In. exact Hn.
Qed.


(** ** The adder: what each part issues *)

Lemma removeDeadMember_issues (P : Call -> Prop) ma ms :
  (forall id, P (CallRemove id)) ->
  issuesOnly P (removeDeadMember E ma ms).
Proof.
  intros HP. unfold removeDeadMember.
  apply issuesOnly_bind; [apply issuesOnly_silent, searchForDead_silent|].
  intros [sel|]; [|apply issuesOnly_ret].
  apply issuesOnly_bind; [apply issuesOnly_callLogged, HP|].
  intros [e|]; apply issuesOnly_ret.
Qed.

Lemma pruneLoop_issues (P : Call -> Prop) ma fuel ms :
  (forall id, P (CallRemove id)) ->
  issuesOnly P (pruneLoop E ma fuel ms).
Proof.
  intros HP. induction fuel as [|fuel IH]; simpl; [apply issuesOnly_outOfFuel|].
  apply issuesOnly_bind; [apply removeDeadMember_issues, HP|].
  intros [[sel|] [e|]]; first [apply issuesOnly_ret | exact IH].
Qed.

Lemma applyStrategy_issues (P : Call -> Prop) ma fuel ms :
  (forall id, P (CallRemove id)) ->
  issuesOnly P (applyStrategy E ma fuel ms).
Proof.
  intros HP. unfold applyStrategy.
  destruct (String.eqb (strategy ma) ReplaceStrategy).
  - apply issuesOnly_bind; [apply removeDeadMember_issues, HP|].
    intros [[sel|] [e|]]; try apply issuesOnly_ret.
    destruct (_ >=? _); apply issuesOnly_ret.
  - destruct (String.eqb (strategy ma) PruneStrategy); [|apply issuesOnly_ret].
    apply issuesOnly_bind; [apply pruneLoop_issues, HP|].
    intros _. apply issuesOnly_ret.
Qed.

(** Neither the add strategy nor the prepared one, nor any name that is
    not a strategy, removes anything: the switch has no case for them. *)
Lemma applyStrategy_other ma fuel ms :
  strategy ma <> ReplaceStrategy -> strategy ma <> PruneStrategy ->
  applyStrategy E ma fuel ms = ret None.
Proof.
  intros H1 H2. unfold applyStrategy.
  apply String.eqb_neq in H1, H2. rewrite H1, H2. reflexivity.
Qed.

(** The guard always returns, after exactly one list call; it reports the
    error of that call, or compares the members that probe healthy with
    the future quorum of the started ones. *)
Lemma countMembers_cons m rest s h w :
  countMembers E (m :: rest) s h w =
  bind (probesHealthy E m)
       (fun b => countMembers E rest (if isStarted m then s + 1 else s)
                              (if b then h + 1 else h)) w.
Proof.
  simpl. unfold probesHealthy, isStarted, bind.
  destruct (alive E m w) as [[[[|]| |] w1] t1]; try reflexivity.
  - destruct (active E m w1) as [[[[[|] [e|]]| |] w2] t2]; simpl;
      try reflexivity;
      destruct (countMembers E rest _ _ w2) as [[r w3] t3];
      rewrite ?app_nil_r, <- ?app_assoc; reflexivity.
  - simpl. destruct (countMembers E rest _ _ w1) as [[r w3] t3].
    rewrite ?app_nil_r. reflexivity.
Qed.

Lemma startedCount_cons m rest :
  startedCount (m :: rest) =
  (if isStarted m then 1 else 0) + startedCount rest.
Proof.
  unfold startedCount. rewrite filter_cons.
  destruct (decide (isStarted m = true)) as [->|Hn]; simpl; [lia|].
  destruct (isStarted m); [congruence|reflexivity].
Qed.

Lemma healthyCount_cons b obs :
  healthyCount (b :: obs) = (if b then 1 else 0) + healthyCount obs.
Proof.
  unfold healthyCount. rewrite filter_cons. destruct b; simpl; [lia|reflexivity].
Qed.

(** The counting loop of the guard counts the started members of the
    listing and the members that probe healthy. *)
Lemma countMembers_observe ms : forall s h w,
  exists obs w',
    observeHealth E ms w = (Done obs, w', []) /\
    countMembers E ms s h w =
      (Done (s + startedCount ms, h + healthyCount obs), w', []).
Proof.
  induction ms as [|m rest IH]; intros s h w.
  - exists [], w. unfold startedCount, healthyCount. simpl.
    rewrite !Z.add_0_r. split; reflexivity.
  - rewrite countMembers_cons. simpl.
    destruct (probesHealthy_silent m w) as (b & w1 & Hb).
    rewrite !(bind_done _ _ _ _ _ _ Hb).
    destruct (IH (if isStarted m then s + 1 else s)
                 (if b then h + 1 else h) w1) as (obs & w2 & Ho & Hc).
    exists (b :: obs), w2.
    rewrite (bind_done _ _ _ _ _ _ Ho), Hc, startedCount_cons, healthyCount_cons.
    simpl. split; [reflexivity|].
    destruct b, (isStarted m); rewrite ?Z.add_assoc, ?Z.add_0_r; reflexivity.
Qed.

Lemma protectQuorum_run ma w :
  match mapi_List E (mapi ma) w with
  | (Err e, w1) => protectQuorum E ma w = (Done (Some e), w1, [CallList])
  | (Ok ms, w1) =>
      exists obs w2,
        observeHealth E ms w1 = (Done obs, w2, []) /\
        protectQuorum E ma w =
          (Done (if healthyCount obs <? futureQuorumOf (startedCount ms)
                 then Some (ErrQuorumAtRisk (startedCount ms) (healthyCount obs)
                              (futureQuorumOf (startedCount ms)))
                 else None), w2, [CallList])
  end.
Proof.
  unfold protectQuorum, maList, callLogged, bind.
  destruct (mapi_List E (mapi ma) w) as [[ms|e] w1]; [|reflexivity].
  destruct (countMembers_observe ms 0 0 w1) as (obs & w2 & Ho & Hc).
  exists obs, w2. split; [exact Ho|]. rewrite Hc. simpl.
  destruct (_ <? _); reflexivity.
Qed.

Lemma protectQuorum_total ma w :
  exists q w', protectQuorum E ma w = (Done q, w', [CallList]).
Proof.
  pose proof (protectQuorum_run ma w) as H.
  destruct (mapi_List E (mapi ma) w) as [[ms|e] w1].
  - destruct H as (obs & w2 & _ & ->). eauto.
  - rewrite H. eauto.
Qed.

Lemma protectQuorum_issues (P : Call -> Prop) ma :
  P CallList -> issuesOnly P (protectQuorum E ma).
Proof.
  intros HP w. destruct (protectQuorum_total ma w) as (q & w' & ->).
  simpl. constructor; [exact HP | constructor].
Qed.

(** ** The adder: [Add] around its guard *)

Lemma Add_split ma fuel name urls w :
  Add E ma fuel name urls w =
  bind (beforeGuard E ma fuel urls)
       (fun p =>
          match p with
          | Returned r => ret r
          | AtGuard (Some m) =>
              bind (protectQuorum E ma)
                   (fun q => match q with
                             | Some err => ret (Err err)
                             | None => ret (Ok (client.PeerURLs m))
                             end)
          | AtGuard None => guardedAdd E ma urls
          end) w.
Proof.
  unfold Add, beforeGuard, bind.
  destruct (maList E ma w) as [[[[ms|e]| |] w0] t0]; simpl;
    rewrite ?app_nil_r; try reflexivity.
  destruct (findUnstartedMember ms urls) as [m|]; simpl.
  - destruct (protectQuorum E ma w0) as [[[[e|]| |] w1] t1]; simpl;
      rewrite ?app_nil_r; reflexivity.
  - destruct (applyStrategy E ma fuel ms w0) as [[[[e|]| |] w1] t1]; simpl;
      rewrite ?app_nil_r; try reflexivity.
    destruct (guardedAdd E ma urls w1) as [[r w2] t2].
    rewrite app_assoc. reflexivity.
Qed.

Lemma beforeGuard_issues (P : Call -> Prop) ma fuel urls :
  P CallList -> (forall id, P (CallRemove id)) ->
  issuesOnly P (beforeGuard E ma fuel urls).
Proof.
  intros HL HR. unfold beforeGuard.
  apply issuesOnly_bind; [apply issuesOnly_callLogged, HL|].
  intros [ms|e]; [|apply issuesOnly_ret].
  destruct (findUnstartedMember ms urls); [apply issuesOnly_ret|].
  apply issuesOnly_bind; [apply applyStrategy_issues, HR|].
  intros [e|]; apply issuesOnly_ret.
Qed.

(** What [Add] returns before it reaches the guard is an error. *)
Lemma beforeGuard_returned ma fuel urls w r w1 t1 :
  beforeGuard E ma fuel urls w = (Done (Returned r), w1, t1) ->
  exists e, r = Err e.
Proof.
  unfold beforeGuard. intros H.
  apply bind_inv in H as ([ms|e] & w0 & t0 & t2 & _ & H & _).
  - destruct (findUnstartedMember ms urls); [discriminate H|].
    apply bind_inv in H as ([e|] & w2 & t3 & t4 & _ & H & _).
    + injection H as <- _ _. eauto.
    + discriminate H.
  - injection H as <- _ _. eauto.
Qed.

(** [Add] from the guard on. *)
Lemma Add_at_guard ma fuel name urls w u w1 t1 q w2 :
  beforeGuard E ma fuel urls w = (Done (AtGuard u), w1, t1) ->
  protectQuorum E ma w1 = (Done q, w2, [CallList]) ->
  Add E ma fuel name urls w =
  match q, u, urls with
  | Some e, _, _ => (Done (Err e), w2, t1 ++ [CallList])
  | None, Some m, _ => (Done (Ok (client.PeerURLs m)), w2, t1 ++ [CallList])
  | None, None, [] => (Panic "index out of range", w2, t1 ++ [CallList])
  | None, None, u0 :: _ =>
      match mapi_Add E (mapi ma) u0 w2 with
      | (Ok _, w3) => (Done (Ok [u0]), w3, t1 ++ [CallList; CallAdd u0])
      | (Err e, w3) => (Done (Err e), w3, t1 ++ [CallList; CallAdd u0])
      end
  end.
Proof.
  intros Hb Hq. rewrite Add_split, (bind_done _ _ _ _ _ _ Hb).
  destruct u as [m|].
  - rewrite (bind_done _ _ _ _ _ _ Hq). destruct q; reflexivity.
  - unfold guardedAdd. rewrite (bind_done _ _ _ _ _ _ Hq).
    destruct q as [e|]; [reflexivity|].
    destruct urls as [|u0 rest]; [reflexivity|].
    unfold maAdd, callLogged, bind.
    destruct (mapi_Add E (mapi ma) u0 w2) as [[added|e] w3]; reflexivity.
Qed.

(** C1 (amended).  The quorum guard run inside [Add] passes iff its
    listing succeeds and [h >= (s+1)/2 + 1], where [s] is the number of
    started members (those with a name) of the freshly listed membership
    and [h] the number of listed members that probe alive and active.
    Whenever [Add] returns successfully, by the unstarted-slot path or
    by the members-API add, the guard passed just before and no add call
    was issued ahead of it; whenever the guard fails, [Add] returns the
    guard's error, which is the quorum-at-risk error or the error of the
    guard's list call, and no members-API add call is issued. *)
Theorem quorum_guard_gates_add ma (fuel : nat) (name : string)
    (urls : list string) w :
  (forall w0,
     (exists w1, protectQuorum E ma w0 = (Done None, w1, [CallList])) <->
     (exists ms w1 obs w2,
        mapi_List E (mapi ma) w0 = (Ok ms, w1) /\
        observeHealth E ms w1 = (Done obs, w2, []) /\
        Z.quot (startedCount ms + 1) 2 + 1 <= healthyCount obs)) /\
  (forall urls' w' t,
     Add E ma fuel name urls w = (Done (Ok urls'), w', t) ->
     exists u w1 t1 w2,
       beforeGuard E ma fuel urls w = (Done (AtGuard u), w1, t1) /\
       protectQuorum E ma w1 = (Done None, w2, [CallList]) /\
       Forall (fun c => isAdd c = false) t1 /\
       match u with
       | Some m =>
           urls' = client.PeerURLs m /\ w' = w2 /\ t = t1 ++ [CallList]
       | None =>
           exists u0 rest added,
             urls = u0 :: rest /\ urls' = [u0] /\
             mapi_Add E (mapi ma) u0 w2 = (Ok added, w') /\
             t = t1 ++ [CallList; CallAdd u0]
       end) /\
  (forall u w1 t1 e w2 tq,
     beforeGuard E ma fuel urls w = (Done (AtGuard u), w1, t1) ->
     protectQuorum E ma w1 = (Done (Some e), w2, tq) ->
     Add E ma fuel name urls w = (Done (Err e), w2, t1 ++ [CallList]) /\
     Forall (fun c => isAdd c = false) (t1 ++ [CallList]) /\
     ((exists ms w3 obs w4,
         mapi_List E (mapi ma) w1 = (Ok ms, w3) /\
         observeHealth E ms w3 = (Done obs, w4, []) /\
         healthyCount obs < Z.quot (startedCount ms + 1) 2 + 1 /\
         e = ErrQuorumAtRisk (startedCount ms) (healthyCount obs)
               (Z.quot (startedCount ms + 1) 2 + 1)) \/
      (exists w3, mapi_List E (mapi ma) w1 = (Err e, w3)))).
Proof.
  assert (Hpre : forall u w1 t1,
             beforeGuard E ma fuel urls w = (Done (AtGuard u), w1, t1) ->
             Forall (fun c => isAdd c = false) t1).
  { intros u w1 t1 Hb.
    pose proof (beforeGuard_issues (fun c => isAdd c = false) ma fuel urls
                  eq_refl (fun _ => eq_refl) w) as H.
    rewrite Hb in H. exact H. }
  split; [|split].
  - intros w0. pose proof (protectQuorum_run ma w0) as Hrun.
    destruct (mapi_List E (mapi ma) w0) as [[ms|e] w1].
    + destruct Hrun as (obs & w2 & Ho & Hrun). rewrite Hrun.
      unfold futureQuorumOf.
      destruct (Z.ltb_spec (healthyCount obs)
                  (Z.quot (startedCount ms + 1) 2 + 1)) as [Hlt|Hge].
      * split; [intros (w' & [=]) |].
        intros (ms' & w1' & obs' & w2' & [= <- <-] & Ho' & Hq).
        rewrite Ho in Ho'. injection Ho' as <- <-. lia.
      * split; [|eauto]. intros _. exists ms, w1, obs, w2. auto.
    + rewrite Hrun. split; [intros (w' & [=]) |].
      intros (ms' & w1' & obs' & w2' & [=] & _).
  - intros urls' w' t HAdd.
    assert (HAdd' := HAdd). rewrite Add_split in HAdd'.
    apply bind_inv in HAdd' as (p & w1 & t1 & t2 & Hb & Hk & _).
    destruct p as [r|u].
    { apply beforeGuard_returned in Hb as [e ->]. discriminate Hk. }
    destruct (protectQuorum_total ma w1) as (q & w2 & Hq).
    rewrite (Add_at_guard _ _ _ _ _ _ _ _ _ _ Hb Hq) in HAdd.
    exists u, w1, t1, w2.
    destruct q as [e|]; [discriminate HAdd|].
    split; [exact Hb|]. split; [exact Hq|]. split; [eapply Hpre, Hb|].
    destruct u as [m|].
    + injection HAdd as <- <- <-. auto.
    + destruct urls as [|u0 rest]; [discriminate HAdd|].
      destruct (mapi_Add E (mapi ma) u0 w2) as [[added|e] w3] eqn:Hadd;
        [|discriminate HAdd].
      injection HAdd as <- <- <-. exists u0, rest, added. auto.
  - intros u w1 t1 e w2 tq Hb Hq.
    destruct (protectQuorum_total ma w1) as (q & w2' & Hq').
    rewrite Hq' in Hq. injection Hq as -> -> <-.
    rewrite (Add_at_guard _ _ _ _ _ _ _ _ _ _ Hb Hq').
    split; [reflexivity|]. split.
    { apply Forall_app. split; [eapply Hpre, Hb|].
      constructor; [reflexivity|constructor]. }
    pose proof (protectQuorum_run ma w1) as Hrun.
    destruct (mapi_List E (mapi ma) w1) as [[ms|e'] w3].
    + left. destruct Hrun as (obs & w4 & Ho & Hrun). rewrite Hrun in Hq'.
      unfold futureQuorumOf in Hq'.
      destruct (Z.ltb_spec (healthyCount obs)
                  (Z.quot (startedCount ms + 1) 2 + 1)) as [Hlt|Hge];
        [|discriminate Hq'].
      injection Hq' as <- <-. exists ms, w3, obs, w4. auto.
    + right. rewrite Hrun in Hq'. injection Hq' as <- <-. eauto.
Qed.

(** ** The search for an unstarted member *)

Lemma newUrlsOf_spec urls u : u ∈ newUrlsOf urls <-> In u urls.
Proof.
  unfold newUrlsOf.
  assert (H : forall (acc : gset string),
             u ∈ foldl (fun newUrls x => {[x]} ∪ newUrls) acc urls <->
             u ∈ acc \/ In u urls).
  { induction urls as [|x rest IH]; intros acc; simpl.
    - tauto.
    - rewrite IH, elem_of_union, elem_of_singleton. intuition auto. }
  rewrite H. rewrite elem_of_empty. tauto.
Qed.

Lemma subsetOfNewUrls_spec urls m :
  subsetOfNewUrls (newUrlsOf urls) m = true <->
  forall u, In u (client.PeerURLs m) -> In u urls.
Proof.
  unfold subsetOfNewUrls. rewrite forallb_forall.
  split; intros H u Hu.
  - apply newUrlsOf_spec. eapply bool_decide_eq_true_1, H, Hu.
  - apply bool_decide_eq_true_2, newUrlsOf_spec, H, Hu.
Qed.

Lemma matchesUnstarted_dec urls m :
  (negb (String.eqb (client.Name m) "") = false /\
   subsetOfNewUrls (newUrlsOf urls) m = true) <-> matchesUnstarted urls m.
Proof.
  unfold matchesUnstarted. rewrite subsetOfNewUrls_spec, negb_false_iff.
  rewrite String.eqb_eq. tauto.
Qed.

(** [findUnstartedMember] returns the first member of the listing that is
    unstarted with peer URLs among [urls], and nil when there is none. *)
Lemma findUnstartedMember_Some ms urls m :
  findUnstartedMember ms urls = Some m <->
  exists pre post,
    ms = pre ++ m :: post /\ matchesUnstarted urls m /\
    forall x, In x pre -> ~ matchesUnstarted urls x.
Proof.
  unfold findUnstartedMember.
  induction ms as [|x rest IH]; simpl.
  - split; [discriminate|]. intros (pre & post & H & _).
    destruct pre; discriminate H.
  - pose proof (matchesUnstarted_dec urls x) as Hx.
    destruct (negb (String.eqb (client.Name x) "")) eqn:Hn;
      [|destruct (subsetOfNewUrls (newUrlsOf urls) x) eqn:Hs].
    + rewrite IH. split.
      * intros (pre & post & -> & Hm & Hpre). exists (x :: pre), post.
        split; [reflexivity|]. split; [exact Hm|].
        intros y [<-|Hy]; [|auto]. intros Hy. apply Hx in Hy as [[=] _].
      * intros (pre & post & Heq & Hm & Hpre).
        destruct pre as [|y pre]; simpl in Heq; injection Heq as <- ->.
        -- apply Hx in Hm as [[=] _].
        -- exists pre, post. split; [reflexivity|]. split; [exact Hm|].
           intros z Hz. apply Hpre. right. exact Hz.
    + split.
      * intros [= <-]. exists [], rest. split; [reflexivity|].
        split; [apply Hx; auto | intros ? []].
      * intros (pre & post & Heq & Hm & Hpre).
        destruct pre as [|y pre]; simpl in Heq; injection Heq as <- ->.
        -- reflexivity.
        -- exfalso. apply (Hpre x); [left; reflexivity | apply Hx; auto].
    + rewrite IH. split.
      * intros (pre & post & -> & Hm & Hpre). exists (x :: pre), post.
        split; [reflexivity|]. split; [exact Hm|].
        intros y [<-|Hy]; [|auto]. intros Hy. apply Hx in Hy as [_ [=]].
      * intros (pre & post & Heq & Hm & Hpre).
        destruct pre as [|y pre]; simpl in Heq; injection Heq as <- ->.
        -- apply Hx in Hm as [_ [=]].
        -- exists pre, post. split; [reflexivity|]. split; [exact Hm|].
           intros z Hz. apply Hpre. right. exact Hz.
Qed.

Lemma findUnstartedMember_None ms urls :
  findUnstartedMember ms urls = None <->
  forall x, In x ms -> ~ matchesUnstarted urls x.
Proof.
  unfold findUnstartedMember.
  induction ms as [|x rest IH]; simpl.
  - split; [intros _ ? [] | reflexivity].
  - pose proof (matchesUnstarted_dec urls x) as Hx.
    destruct (negb (String.eqb (client.Name x) "")) eqn:Hn;
      [|destruct (subsetOfNewUrls (newUrlsOf urls) x) eqn:Hs].
    + rewrite IH. split.
      * intros H y [<-|Hy]; [|auto]. intros Hy. apply Hx in Hy as [[=] _].
      * intros H y Hy. apply H. right. exact Hy.
    + split; [discriminate|]. intros H. exfalso.
      apply (H x); [left; reflexivity | apply Hx; auto].
    + rewrite IH. split.
      * intros H y [<-|Hy]; [|auto]. intros Hy. apply Hx in Hy as [_ [=]].
      * intros H y Hy. apply H. right. exact Hy.
Qed.


Lemma beforeGuard_found ma fuel urls w ms w0 m :
  mapi_List E (mapi ma) w = (Ok ms, w0) ->
  findUnstartedMember ms urls = Some m ->
  beforeGuard E ma fuel urls w = (Done (AtGuard (Some m)), w0, [CallList]).
Proof.
  intros HL Hf. unfold beforeGuard, maList, callLogged, bind.
  rewrite HL, Hf. reflexivity.
Qed.

Lemma beforeGuard_not_found ma fuel urls w ms w0 :
  mapi_List E (mapi ma) w = (Ok ms, w0) ->
  findUnstartedMember ms urls = None ->
  beforeGuard E ma fuel urls w =
  match applyStrategy E ma fuel ms w0 with
  | (Done (Some err), w1, t1) => (Done (Returned (Err err)), w1, CallList :: t1)
  | (Done None, w1, t1) => (Done (AtGuard None), w1, CallList :: t1)
  | (Panic msg, w1, t1) => (Panic msg, w1, CallList :: t1)
  | (OutOfFuel, w1, t1) => (OutOfFuel, w1, CallList :: t1)
  end.
Proof.
  intros HL Hf. unfold beforeGuard, maList, callLogged, bind.
  rewrite HL, Hf.
  destruct (applyStrategy E ma fuel ms w0) as [[[[e|]| |] w1] t1]; simpl;
    rewrite ?app_nil_r; reflexivity.
Qed.

Lemma beforeGuard_list_error ma fuel urls w e w0 :
  mapi_List E (mapi ma) w = (Err e, w0) ->
  beforeGuard E ma fuel urls w = (Done (Returned (Err e)), w0, [CallList]).
Proof.
  intros HL. unfold beforeGuard, maList, callLogged, bind.
  rewrite HL. reflexivity.
Qed.

Lemma Add_returned ma fuel name urls w r w1 t1 :
  beforeGuard E ma fuel urls w = (Done (Returned r), w1, t1) ->
  Add E ma fuel name urls w = (Done r, w1, t1).
Proof.
  intros Hb. rewrite Add_split, (bind_done _ _ _ _ _ _ Hb).
  simpl. rewrite app_nil_r. reflexivity.
Qed.


(** Outside the replace and prune strategies [Add] never removes. *)
Lemma Add_without_removal ma fuel name urls :
  strategy ma <> ReplaceStrategy -> strategy ma <> PruneStrategy ->
  issuesOnly (fun c => isRemove c = false) (Add E ma fuel name urls).
Proof.
  intros H1 H2 w. rewrite Add_split.
  apply (issuesOnly_bind (fun c => isRemove c = false)).
  - unfold beforeGuard.
    apply issuesOnly_bind; [apply issuesOnly_callLogged; reflexivity|].
    intros [ms|e]; [|apply issuesOnly_ret].
    destruct (findUnstartedMember ms urls); [apply issuesOnly_ret|].
    rewrite (applyStrategy_other ma fuel ms H1 H2).
    apply issuesOnly_bind; [apply issuesOnly_ret|].
    intros [e|]; apply issuesOnly_ret.
  - intros [r|[m|]].
    + apply issuesOnly_ret.
    + apply issuesOnly_bind; [apply protectQuorum_issues; reflexivity|].
      intros [e|]; apply issuesOnly_ret.
    + unfold guardedAdd.
      apply issuesOnly_bind; [apply protectQuorum_issues; reflexivity|].
      intros [e|]; [apply issuesOnly_ret|].
      destruct urls as [|u0 rest]; [apply issuesOnly_panic|].
      apply issuesOnly_bind; [apply issuesOnly_callLogged; reflexivity|].
      intros [added|e]; apply issuesOnly_ret.
Qed.


(** Under the replace strategy a search that finds no dead member makes
    [Add] return the error of [removeDeadMember]: the branch of [Add]
    for a nil member without an error is never taken. *)
Lemma Add_replace_without_dead ma fuel name urls w ms w0 w1 :
  strategy ma = ReplaceStrategy ->
  mapi_List E (mapi ma) w = (Ok ms, w0) ->
  findUnstartedMember ms urls = None ->
  searchForDead E ma ms w0 = (Done None, w1, []) ->
  Add E ma fuel name urls w = (Done (Err ErrNoDeadMember), w1, [CallList]).
Proof.
  intros Hs HL Hf Hd. apply Add_returned.
  rewrite (beforeGuard_not_found ma fuel urls w ms w0 HL Hf).
  assert (Hr : removeDeadMember E ma ms w0 =
               (Done (None, Some ErrNoDeadMember), w1, [])).
  { unfold removeDeadMember. rewrite (bind_done _ _ _ _ _ _ Hd). reflexivity. }
  unfold applyStrategy. rewrite Hs. simpl.
  rewrite (bind_done _ _ _ _ _ _ Hr). reflexivity.
Qed.

(** ** Join *)

Lemma parseRoster_issues (P : Call -> Prop) children port nodes :
  issuesOnly P (parseRoster E children port nodes).
Proof.
  revert nodes. induction children as [|nn rest IH]; intros nodes; simpl;
    [apply issuesOnly_ret|].
  destruct (discovery.Value nn) as [v|]; [|apply issuesOnly_panic].
  destruct (NewDiscoveryNode E v port); apply IH.
Qed.

Lemma targetSizeOf_issues (P : Call -> Prop) url cs :
  issuesOnly P (targetSizeOf E url cs).
Proof.
  unfold targetSizeOf. destruct (cs <? 0).
  - apply issuesOnly_bind; [apply issuesOnly_call|].
    intros [res|e]; [|apply issuesOnly_ret].
    destruct (discovery.NodeValue res); [apply issuesOnly_ret | apply issuesOnly_panic].
  - destruct (cs =? 0); apply issuesOnly_ret.
Qed.

Lemma clusterExistingHeuristic_silent size nodes :
  silent (clusterExistingHeuristic E size nodes).
Proof.
  unfold clusterExistingHeuristic. destruct nodes as [ns|]; [|apply silent_ret].
  apply silent_bind; [apply probeAll_silent|]. intros hs.
  repeat match goal with |- context [if ?b then _ else _] => destruct b end;
    apply silent_ret.
Qed.

(** [Join] up to its dispatch on the verdict of the heuristic. *)
Lemma Join_run fuel url name adv fresh port cs strat w
    res w1 nodes w2 t2 sz w3 t3 v w4 t4 :
  discovery_Value E url "/" w = (Ok res, w1) ->
  parseRoster E (discovery.NodeNodes res) port [] w1 = (Done nodes, w2, t2) ->
  targetSizeOf E url cs w2 = (Done (Ok sz), w3, t3) ->
  clusterExistingHeuristic E sz (Some nodes) w3 = (Done (v, None), w4, t4) ->
  Join E fuel url name adv fresh port cs strat w =
  joinDispatch E fuel url name adv fresh port sz strat v w4.
Proof.
  intros Hd Hp Hs Hh.
  pose proof (issuesOnly_nothing _ w1
                (parseRoster_issues _ (discovery.NodeNodes res) port [])) as H2.
  pose proof (issuesOnly_nothing _ w2 (targetSizeOf_issues _ url cs)) as H3.
  destruct (clusterExistingHeuristic_silent sz (Some nodes) w3)
    as (x & w4' & H4).
  rewrite Hp in H2. rewrite Hs in H3. rewrite Hh in H4.
  simpl in H2, H3. subst t2 t3. injection H4 as _ _ ->.
  unfold Join, call at 1, bind at 1. rewrite Hd.
  rewrite (bind_done _ _ _ _ _ _ Hp), (bind_done _ _ _ _ _ _ Hs),
    (bind_done _ _ _ _ _ _ Hh).
  destruct (joinDispatch E fuel url name adv fresh port sz strat v w4)
    as [[r w5] t5]. reflexivity.
Qed.

(** C5.  When the heuristic returns the dormant verdict, a non-nil empty
    list of active nodes, [Join] fails with the cluster-down error and
    emits no configuration if [fresh] is set; otherwise it emits the
    state "existing" with the advertised peer URLs and the name, an
    empty initial cluster and no discovery URL. *)
Theorem Join_dormant_cluster (fuel : nat) url name adv (fresh : bool)
    port cs strat w res w1 nodes w2 t2 sz w3 t3 w4 t4 :
  discovery_Value E url "/" w = (Ok res, w1) ->
  parseRoster E (discovery.NodeNodes res) port [] w1 = (Done nodes, w2, t2) ->
  targetSizeOf E url cs w2 = (Done (Ok sz), w3, t3) ->
  clusterExistingHeuristic E sz (Some nodes) w3 =
    (Done (Some [], None), w4, t4) ->
  Join E fuel url name adv fresh port cs strat w =
    (Done (if fresh then Err ErrClusterDown
           else Ok {| InitialCluster := [];
                      InitialClusterState := "existing";
                      AdvertisePeerURLs := adv;
                      Discovery := "";
                      ConfigName := name |}), w4, []).
Proof.
  intros Hd Hp Hs Hh.
  rewrite (Join_run fuel url name adv fresh port cs strat w
             _ _ _ _ _ _ _ _ _ _ _ Hd Hp Hs Hh).
  simpl. destruct fresh; reflexivity.
Qed.

(** A child without a value stops [Join] with a panic: the branch that
    announces the skip only logs, and the value is dereferenced next. *)
Lemma parseRoster_nil_value children port c :
  In c children -> discovery.Value c = None ->
  forall nodes w,
    parseRoster E children port nodes w =
      (Panic "nil pointer dereference", w, []).
Proof.
  induction children as [|nn rest IH]; intros Hin Hv nodes w; [destruct Hin|].
  simpl. destruct Hin as [->|Hin].
  - rewrite Hv. reflexivity.
  - destruct (discovery.Value nn) as [v|]; [|reflexivity].
    destruct (NewDiscoveryNode E v port); apply IH; assumption.
Qed.

Lemma Join_nil_value fuel url name adv fresh port cs strat w res w1 c :
  discovery_Value E url "/" w = (Ok res, w1) ->
  In c (discovery.NodeNodes res) -> discovery.Value c = None ->
  Join E fuel url name adv fresh port cs strat w =
    (Panic "nil pointer dereference", w1, []).
Proof.
  intros Hd Hin Hv. unfold Join, call at 1, bind at 1. rewrite Hd.
  unfold bind. rewrite (parseRoster_nil_value _ port c Hin Hv). reflexivity.
Qed.

(** Children that have a value are all processed: the roster is made of
    those that parse, in order, and the others are left out. *)
Lemma parseRoster_values children port :
  (forall c, In c children -> discovery.Value c <> None) ->
  forall nodes w,
    parseRoster E children port nodes w =
      (Done (nodes ++
             omap (fun c => match discovery.Value c with
                            | Some v =>
                                match NewDiscoveryNode E v port with
                                | Ok n => Some n
                                | Err _ => None
                                end
                            | None => None
                            end) children), w, []).
Proof.
  induction children as [|nn rest IH]; intros Hv nodes w; simpl.
  - rewrite app_nil_r. reflexivity.
  - assert (Hrest : forall c, In c rest -> discovery.Value c <> None)
      by (intros c Hc; apply Hv; right; exact Hc).
    destruct (discovery.Value nn) as [v|] eqn:Hnn.
    + destruct (NewDiscoveryNode E v port) as [n|e]; rewrite (IH Hrest).
      * rewrite <- app_assoc. reflexivity.
      * reflexivity.
    + exfalso. apply (Hv nn); [left; reflexivity | exact Hnn].
Qed.



(** ** The initial cluster *)

Lemma splitComma_nonempty s : splitComma s <> [].
Proof.
  destruct s as [|c rest]; simpl; [discriminate|].
  destruct (Ascii.eqb c ","); [discriminate|].
  destruct (splitComma rest); discriminate.
Qed.

Lemma foldl_named_urls nodes : forall acc,
  foldl (fun acc n => acc ++ discovery.NamedPeerURLs n) acc nodes =
  acc ++ namedURLsOf nodes.
Proof.
  unfold namedURLsOf.
  induction nodes as [|n rest IH]; intros acc; simpl.
  - rewrite app_nil_r. reflexivity.
  - rewrite IH, <- app_assoc. reflexivity.
Qed.

(** A named URL determines the name, for names without the separator. *)
Lemma nameURL_name a : forall b u v,
  hasSeparator a = false -> hasSeparator b = false ->
  nameURL a u = nameURL b v -> a = b.
Proof.
  unfold nameURL.
  induction a as [|c a IH]; intros [|d b] u v Ha Hb; simpl in *.
  - reflexivity.
  - intros [= <- _]. discriminate Hb.
  - intros [= -> _]. discriminate Ha.
  - intros [= <- H]. apply orb_false_elim in Ha as [_ Ha], Hb as [_ Hb].
    f_equal. eapply IH; eassumption.
Qed.

Lemma namedURLsOf_head nodes first rest :
  namedURLsOf nodes = first :: rest ->
  exists n u, In n nodes /\ first = nameURL (client.Name (discovery.Member n)) u.
Proof.
  unfold namedURLsOf.
  induction nodes as [|n ns IH]; simpl; [discriminate|].
  unfold discovery.NamedPeerURLs at 1.
  destruct (client.PeerURLs (discovery.Member n)) as [|u us]; simpl.
  - intros H. destruct (IH H) as (n' & u' & Hin & ->). eauto.
  - intros [= <- _]. exists n, u. split; [left; reflexivity | reflexivity].
Qed.

(** C10 (amended).  When the first unstarted member of the listing whose
    peer URLs are among the caller's is one with no peer URL, which
    satisfies the subset test vacuously, and the guard passes, [Add]
    recycles it and returns its empty list of peer URLs; [Join] then
    emits an "existing" configuration whose initial cluster is exactly
    the named URLs of the active nodes, without a named URL of the
    joining node in front.  It therefore does not begin with a named URL
    of the joining node, unless an active node bears its name. *)
Theorem Join_recycles_slot_without_peer_urls (fuel : nat) url name adv
    port cs strat w res w1 nodes w2 t2 sz w3 t3 active w4 t4
    adder ms w5 pre m post w6 :
  discovery_Value E url "/" w = (Ok res, w1) ->
  parseRoster E (discovery.NodeNodes res) port [] w1 = (Done nodes, w2, t2) ->
  targetSizeOf E url cs w2 = (Done (Ok sz), w3, t3) ->
  clusterExistingHeuristic E sz (Some nodes) w3 =
    (Done (Some active, None), w4, t4) ->
  active <> [] ->
  strat <> PreparedStrategy ->
  NewMemberAdder E active strat port sz = Ok adder ->
  mapi_List E (mapi adder) w4 = (Ok ms, w5) ->
  ms = pre ++ m :: post ->
  client.Name m = "" ->
  client.PeerURLs m = [] ->
  (forall x, In x pre -> ~ matchesUnstarted (splitComma adv) x) ->
  protectQuorum E adder w5 = (Done None, w6, [CallList]) ->
  matchesUnstarted (splitComma adv) m /\
  Add E adder fuel name (splitComma adv) w4 =
    (Done (Ok []), w6, [CallList; CallList]) /\
  Join E fuel url name adv true port cs strat w =
    (Done (Ok {| InitialCluster := namedURLsOf active;
                 InitialClusterState := "existing";
                 AdvertisePeerURLs := adv;
                 Discovery := "";
                 ConfigName := name |}), w6, [CallList; CallList]) /\
  (hasSeparator name = false ->
   (forall n, In n active ->
      hasSeparator (client.Name (discovery.Member n)) = false /\
      client.Name (discovery.Member n) <> name) ->
   forall first rest,
     namedURLsOf active = first :: rest -> ~ namedBy name first).
Proof.
  intros Hd Hp Hs Hh Hact Hstrat Hnew HL Hms Hname Hpeers Hpre Hq.
  assert (Hm : matchesUnstarted (splitComma adv) m).
  { split; [exact Hname|]. rewrite Hpeers. intros u []. }
  assert (Hf : findUnstartedMember ms (splitComma adv) = Some m).
  { apply findUnstartedMember_Some. exists pre, post. auto. }
  assert (HA : Add E adder fuel name (splitComma adv) w4 =
               (Done (Ok []), w6, [CallList; CallList])).
  { rewrite (Add_at_guard adder fuel name (splitComma adv) w4 _ _ _ _ _
               (beforeGuard_found adder fuel _ w4 ms w5 m HL Hf) Hq).
    rewrite Hpeers. reflexivity. }
  split; [exact Hm|]. split; [exact HA|]. split.
  - rewrite (Join_run fuel url name adv true port cs strat w
               _ _ _ _ _ _ _ _ _ _ _ Hd Hp Hs Hh).
    unfold joinDispatch. destruct active as [|n ns]; [congruence|].
    destruct (splitComma adv) as [|a0 adv'] eqn:Hsplit;
      [exfalso; eapply splitComma_nonempty, Hsplit|].
    simpl map. apply String.eqb_neq in Hstrat. rewrite Hstrat. simpl negb.
    simpl andb. rewrite Hnew.
    cbn [map negb andb]. unfold bind. rewrite HA. simpl.
    rewrite foldl_named_urls. reflexivity.
  - intros Hsep Hnames first rest Hfirst [u Hu].
    apply namedURLsOf_head in Hfirst as (n & v & Hin & ->).
    destruct (Hnames n Hin) as [Hn Hne]. apply Hne.
    eapply nameURL_name; [exact Hn | exact Hsep | exact Hu].
Qed.

(** ** The shape of every emitted configuration *)

Lemma beforeGuard_at_guard ma fuel urls w u w1 t1 :
  beforeGuard E ma fuel urls w = (Done (AtGuard u), w1, t1) ->
  match u with
  | Some m =>
      exists ms, mapi_List E (mapi ma) w = (Ok ms, w1) /\
                 findUnstartedMember ms urls = Some m
  | None =>
      exists ms w0, mapi_List E (mapi ma) w = (Ok ms, w0) /\
                    findUnstartedMember ms urls = None
  end.
Proof.
  intros Hb.
  destruct (mapi_List E (mapi ma) w) as [[ms|e] w0] eqn:HL.
  - destruct (findUnstartedMember ms urls) as [m|] eqn:Hf.
    + rewrite (beforeGuard_found ma fuel urls w ms w0 m HL Hf) in Hb.
      injection Hb as <- <- <-. eauto.
    + rewrite (beforeGuard_not_found ma fuel urls w ms w0 HL Hf) in Hb.
      destruct (applyStrategy E ma fuel ms w0) as [[[[e|]| |] w2] t2];
        try discriminate Hb.
      injection Hb as <- <- <-. eauto.
  - rewrite (beforeGuard_list_error ma fuel urls w e w0 HL) in Hb.
    discriminate Hb.
Qed.

(** What a successful [Add] returns: the peer URLs of the unstarted member
    it found, or the first of the caller's URLs. *)
Lemma Add_success ma fuel name urls w urls' w' t :
  Add E ma fuel name urls w = (Done (Ok urls'), w', t) ->
  (exists m, matchesUnstarted urls m /\ urls' = client.PeerURLs m) \/
  (exists u0 rest, urls = u0 :: rest /\ urls' = [u0]).
Proof.
  intros HAdd. assert (HAdd' := HAdd). rewrite Add_split in HAdd'.
  apply bind_inv in HAdd' as (p & w1 & t1 & t2 & Hb & Hk & _).
  destruct p as [r|u].
  { apply beforeGuard_returned in Hb as [e ->]. discriminate Hk. }
  destruct (protectQuorum_total ma w1) as (q & w2 & Hq).
  rewrite (Add_at_guard _ _ _ _ _ _ _ _ _ _ Hb Hq) in HAdd.
  apply beforeGuard_at_guard in Hb.
  destruct q as [e|]; [discriminate HAdd|].
  destruct u as [m|].
  - left. destruct Hb as (ms & _ & Hf). injection HAdd as <- _ _.
    apply findUnstartedMember_Some in Hf as (pre & post & _ & Hm & _). eauto.
  - right. destruct urls as [|u0 rest]; [discriminate HAdd|].
    destruct (mapi_Add E (mapi ma) u0 w2) as [[added|e] w3];
      [|discriminate HAdd].
    injection HAdd as <- _ _. eauto.
Qed.



(** ** The calls of [Add], strategy by strategy *)

(** Outside the replace and prune strategies the fuel plays no part. *)
Lemma Add_other_fuel ma fuel fuel' name urls w :
  strategy ma <> ReplaceStrategy -> strategy ma <> PruneStrategy ->
  Add E ma fuel' name urls w = Add E ma fuel name urls w.
Proof.
  intros H1 H2. unfold Add, bind.
  destruct (maList E ma w) as [[[[ms|e]| |] w0] t0]; try reflexivity.
  destruct (findUnstartedMember ms urls); [reflexivity|].
  rewrite !(applyStrategy_other ma _ ms H1 H2). reflexivity.
Qed.

(** X2.  Under the add strategy, the prepared one and any strategy other
    than replace and prune, [Add] issues no remove call.  Its calls are
    the list call alone (which failed), the two list calls (an unstarted
    member was recycled, or the guard refused, or the caller gave no
    URL), or the two list calls followed by the add of the caller's first
    URL.  The unbounded loop is not entered: the run ends, and does not
    depend on the fuel. *)
Theorem Add_calls_outside_replace_and_prune ma (fuel : nat) (name : string)
    (urls : list string) w :
  strategy ma <> ReplaceStrategy -> strategy ma <> PruneStrategy ->
  Forall (fun c => isRemove c = false) (Add E ma fuel name urls w).2 /\
  ((Add E ma fuel name urls w).2 = [CallList] \/
   (Add E ma fuel name urls w).2 = [CallList; CallList] \/
   exists u0 rest,
     urls = u0 :: rest /\
     (Add E ma fuel name urls w).2 = [CallList; CallList; CallAdd u0]) /\
  (Add E ma fuel name urls w).1.1 <> OutOfFuel /\
  forall fuel', Add E ma fuel' name urls w = Add E ma fuel name urls w.
Proof.
  intros H1 H2. split; [apply Add_without_removal; assumption|].
  split; [|split; [|intros fuel'; apply Add_other_fuel; assumption]].
  - destruct (mapi_List E (mapi ma) w) as [[ms|e] w0] eqn:HL.
    + destruct (protectQuorum_total ma w0) as (q & w1 & Hq).
      destruct (findUnstartedMember ms urls) as [m|] eqn:Hf.
      * rewrite (Add_at_guard _ _ _ _ _ _ _ _ _ _
                   (beforeGuard_found ma fuel urls w ms w0 m HL Hf) Hq).
        right. left. destruct q; reflexivity.
      * pose proof (beforeGuard_not_found ma fuel urls w ms w0 HL Hf) as Hb.
        rewrite (applyStrategy_other ma fuel ms H1 H2) in Hb. simpl in Hb.
        rewrite (Add_at_guard _ _ _ _ _ _ _ _ _ _ Hb Hq).
        destruct q as [e|]; [right; left; reflexivity|].
        destruct urls as [|u0 rest]; [right; left; reflexivity|].
        right. right. exists u0, rest. split; [reflexivity|].
        destruct (mapi_Add E (mapi ma) u0 w1) as [[added|e] w2]; reflexivity.
    + rewrite (Add_returned _ _ _ _ _ _ _ _
                 (beforeGuard_list_error ma fuel urls w e w0 HL)).
      left. reflexivity.
  - destruct (mapi_List E (mapi ma) w) as [[ms|e] w0] eqn:HL.
    + destruct (protectQuorum_total ma w0) as (q & w1 & Hq).
      destruct (findUnstartedMember ms urls) as [m|] eqn:Hf.
      * rewrite (Add_at_guard _ _ _ _ _ _ _ _ _ _
                   (beforeGuard_found ma fuel urls w ms w0 m HL Hf) Hq).
        destruct q; discriminate.
      * pose proof (beforeGuard_not_found ma fuel urls w ms w0 HL Hf) as Hb.
        rewrite (applyStrategy_other ma fuel ms H1 H2) in Hb. simpl in Hb.
        rewrite (Add_at_guard _ _ _ _ _ _ _ _ _ _ Hb Hq).
        destruct q as [e|]; [discriminate|].
        destruct urls as [|u0 rest]; [discriminate|].
        destruct (mapi_Add E (mapi ma) u0 w1) as [[added|e] w2]; discriminate.
    + rewrite (Add_returned _ _ _ _ _ _ _ _
                 (beforeGuard_list_error ma fuel urls w e w0 HL)).
      discriminate.
Qed.

(** ** More on the search for an unstarted member *)

Lemma forallb_false {A} (f : A -> bool) l :
  forallb f l = false -> exists x, In x l /\ f x = false.
Proof.
  induction l as [|a l IH]; simpl; [discriminate|].
  destruct (f a) eqn:Ha; simpl.
  - intros H. destruct (IH H) as (x & Hx & Hf). eauto.
  - intros _. eauto.
Qed.

(** X3.  [findUnstartedMember] returns a member exactly when it is the
    first member of the listing that has no name and whose peer URLs are
    all among the caller's, and nil exactly when the listing has no such
    member; started members are passed over whatever their URLs. *)
Theorem findUnstartedMember_first_match (ms : list client.Member)
    (urls : list string) :
  (forall m,
     findUnstartedMember ms urls = Some m <->
     exists pre post,
       ms = pre ++ m :: post /\
       client.Name m = "" /\
       (forall u, In u (client.PeerURLs m) -> In u urls) /\
       forall x, In x pre ->
         client.Name x <> "" \/
         exists u, In u (client.PeerURLs x) /\ ~ In u urls) /\
  (findUnstartedMember ms urls = None <->
   forall x, In x ms ->
     client.Name x <> "" \/
     exists u, In u (client.PeerURLs x) /\ ~ In u urls).
Proof.
  assert (Hnot : forall x,
             ~ matchesUnstarted urls x <->
             (client.Name x <> "" \/
              exists u, In u (client.PeerURLs x) /\ ~ In u urls)).
  { intros x. pose proof (matchesUnstarted_dec urls x) as Hx. split.
    - intros Hn.
      destruct (String.eqb (client.Name x) "") eqn:Hname.
      + right. apply String.eqb_eq in Hname.
        destruct (subsetOfNewUrls (newUrlsOf urls) x) eqn:Hs.
        * exfalso. apply Hn, Hx. split; reflexivity.
        * unfold subsetOfNewUrls in Hs.
          apply forallb_false in Hs as (u & Hu & Hb).
          exists u. split; [exact Hu|].
          intros Hin. apply bool_decide_eq_false_1 in Hb.
          apply Hb, newUrlsOf_spec, Hin.
      + left. apply String.eqb_neq, Hname.
    - intros [Hname|(u & Hu & Hnin)] [Hn Hsub]; [congruence|].
      apply Hnin, Hsub, Hu. }
  split.
  - intros m. rewrite findUnstartedMember_Some. split.
    + intros (pre & post & Hms & [Hn Hsub] & Hpre).
      exists pre, post. repeat (split; [assumption|]).
      intros x Hx. apply Hnot, Hpre, Hx.
    + intros (pre & post & Hms & Hn & Hsub & Hpre).
      exists pre, post. split; [exact Hms|]. split; [split; assumption|].
      intros x Hx. apply Hnot, Hpre, Hx.
  - rewrite findUnstartedMember_None. split; intros H x Hx; apply Hnot, H, Hx.
Qed.

(** X4.  The caller's URLs count as a set: their order and repetitions
    do not change the member found. *)
Theorem findUnstartedMember_urls_as_set (ms : list client.Member)
    (urls urls' : list string) :
  (forall u, In u urls <-> In u urls') ->
  findUnstartedMember ms urls = findUnstartedMember ms urls'.
Proof.
  intros Hsame. unfold findUnstartedMember.
  assert (Hsub : forall m,
             subsetOfNewUrls (newUrlsOf urls) m =
             subsetOfNewUrls (newUrlsOf urls') m).
  { intros m. apply eq_true_iff_eq.
    rewrite !subsetOfNewUrls_spec. split; intros H u Hu; apply Hsame, H, Hu. }
  induction ms as [|x rest IH]; cbn [findUnstartedIn]; [reflexivity|].
  rewrite Hsub, IH. reflexivity.
Qed.

(** ** One health test *)

(** [active] never reports a node active together with an error. *)
Lemma active_error m w b e w' t :
  active E m w = (Done (b, Some e), w', t) -> b = false.
Proof.
  unfold active. destruct (client_New E (client.ClientURLs m)) as [err|].
  - intros [= <- _ _ _]. reflexivity.
  - unfold bind, call.
    destruct (mapi_Leader E (client.ClientURLs m) w) as [[leader|err] w1];
      simpl; intros H; inversion H; reflexivity.
Qed.

Lemma observeHealth_length ms : forall w obs w' t,
  observeHealth E ms w = (Done obs, w', t) -> length obs = length ms.
Proof.
  induction ms as [|m rest IH]; intros w obs w' t; simpl.
  - intros [= <- _ _]. reflexivity.
  - intros H. apply bind_inv in H as (h & w1 & t1 & t2 & _ & H & _).
    apply bind_inv in H as (hs & w2 & t3 & t4 & Hh & H & _).
    injection H as <- _ _. simpl. f_equal. eapply IH, Hh.
Qed.

Lemma probeNode_probesHealthy (n : discovery.Machine) w :
  probeNode E n w = probesHealthy E (discovery.Member n) w.
Proof.
  unfold probeNode, probesHealthy, bind.
  destruct (alive E (discovery.Member n) w) as [[[[|]| |] w1] t1];
    try reflexivity.
  destruct (active E (discovery.Member n) w1) as [[[[b [e|]]| |] w2] t2] eqn:Ha;
    try reflexivity.
  - apply active_error in Ha. subst b. reflexivity.
  - destruct b; reflexivity.
Qed.

Lemma healthyAmong_observe order : forall w,
  exists obs w',
    observeHealth E (map discovery.Member order) w = (Done obs, w', []) /\
    healthyAmong E order w =
      (Done (map fst (filter (fun p => p.2 = true) (zip order obs))), w', []).
Proof.
  induction order as [|n rest IH]; intros w;
    cbn [healthyAmong observeHealth map].
  - exists [], w. split; reflexivity.
  - destruct (probesHealthy_silent (discovery.Member n) w) as (b & w1 & Hb).
    assert (Hn : probeNode E n w = (Done b, w1, []))
      by (rewrite probeNode_probesHealthy; exact Hb).
    rewrite (bind_done _ _ _ _ _ _ Hb), (bind_done _ _ _ _ _ _ Hn).
    destruct (IH w1) as (obs & w2 & Ho & Hh).
    exists (b :: obs), w2.
    rewrite (bind_done _ _ _ _ _ _ Ho), (bind_done _ _ _ _ _ _ Hh).
    simpl. split; [reflexivity|].
    rewrite filter_cons. simpl. destruct b; reflexivity.
Qed.

(** X5.  The existence heuristic and the quorum guard apply the same
    health test.  The goroutine of the heuristic gives up on [!ok] and
    the guard counts on [isActive && err == nil]; as [active] never
    returns true together with an error, a node passes the one exactly
    when its member passes the other, in the same world and with the same
    effect on it.  So the nodes that a round of the heuristic reports are
    those of the round whose members the guard would have counted
    healthy, in the order of the round. *)
Theorem heuristic_and_guard_share_health_test
    (order : list discovery.Machine) w :
  (forall n w0, probeNode E n w0 = probesHealthy E (discovery.Member n) w0) /\
  exists obs w',
    observeHealth E (map discovery.Member order) w = (Done obs, w', []) /\
    healthyAmong E order w =
      (Done (map fst (filter (fun p => p.2 = true) (zip order obs))), w', []) /\
    Z.of_nat (length (map fst (filter (fun p => p.2 = true) (zip order obs)))) =
      healthyCount obs.
Proof.
  split; [apply probeNode_probesHealthy|].
  destruct (healthyAmong_observe order w) as (obs & w' & Ho & Hh).
  exists obs, w'. split; [exact Ho|]. split; [exact Hh|].
  apply observeHealth_length in Ho. rewrite length_map in Ho.
  clear Hh. unfold healthyCount. f_equal. rewrite length_map.
  revert obs Ho. induction order as [|n rest IH]; intros [|b obs] Ho;
    try discriminate Ho; [reflexivity|].
  simpl. rewrite !filter_cons. simpl. injection Ho as Ho.
  destruct b; simpl; rewrite (IH obs Ho); reflexivity.
Qed.

(** ** The removal of a dead member *)

(** A member whose URLs all leave the inner loop at its end has peer URLs
    that all parse under its name. *)
Lemma looksDead_parses ma name urls : forall w w' t,
  looksDead E ma name urls w = (Done true, w', t) ->
  forall u, In u urls ->
    exists n, NewDiscoveryNode E (name +:+ "=" +:+ u) (clientPort ma) = Ok n.
Proof.
  induction urls as [|u0 rest IH]; intros w w' t H u Hu; [destruct Hu|].
  simpl in H.
  destruct (NewDiscoveryNode E (name +:+ "=" +:+ u0) (clientPort ma))
    as [n|e] eqn:Hn; [|discriminate H].
  assert (exists w1 t1, looksDead E ma name rest w1 = (Done true, w', t1))
    as (w1 & t1 & Hrest).
  { apply bind_inv in H as ([|] & w1 & t1 & t2 & _ & H & _); [|eauto].
    apply bind_inv in H as ([[|] [e|]] & w2 & t3 & t4 & _ & H & _);
      try discriminate H.
    eauto. }
  destruct Hu as [<-|Hu]; [eauto|]. eapply IH; eassumption.
Qed.

Lemma searchForDead_Some ma members : forall w m w' t,
  searchForDead E ma members w = (Done (Some m), w', t) ->
  exists pre post,
    members = pre ++ m :: post /\
    (forall x, In x pre -> client.PeerURLs x <> []) /\
    (client.PeerURLs m = [] \/
     forall u, In u (client.PeerURLs m) ->
       exists n, NewDiscoveryNode E (client.Name m +:+ "=" +:+ u)
                   (clientPort ma) = Ok n).
Proof.
  induction members as [|x rest IH]; intros w m w' t H; simpl in H;
    [discriminate H|].
  destruct (length (client.PeerURLs x) =? 0)%nat eqn:Hlen.
  - injection H as <- _ _. exists [], rest. split; [reflexivity|].
    split; [intros ? []|]. left.
    destruct (client.PeerURLs x); [reflexivity | discriminate Hlen].
  - apply bind_inv in H as ([|] & w1 & t1 & t2 & Hd & H & _).
    + injection H as <- _ _. exists [], rest. split; [reflexivity|].
      split; [intros ? []|]. right. eapply looksDead_parses. exact Hd.
    + apply IH in H as (pre & post & -> & Hpre & Hm).
      exists (x :: pre), post. split; [reflexivity|]. split; [|exact Hm].
      intros y [<-|Hy]; [|auto]. intros Hnil. rewrite Hnil in Hlen.
      discriminate Hlen.
Qed.

(** [removeDeadMember], from the member its search selects. *)
Lemma removeDeadMember_run ma members w :
  exists sel w1,
    searchForDead E ma members w = (Done sel, w1, []) /\
    removeDeadMember E ma members w =
      match sel with
      | None => (Done (None, Some ErrNoDeadMember), w1, [])
      | Some m =>
          match mapi_Remove E (mapi ma) (client.ID m) w1 with
          | (None, w2) => (Done (Some m, None), w2, [CallRemove (client.ID m)])
          | (Some e, w2) => (Done (None, Some e), w2, [CallRemove (client.ID m)])
          end
      end.
Proof.
  destruct (searchForDead_silent ma members w) as (sel & w1 & Hs).
  exists sel, w1. split; [exact Hs|].
  unfold removeDeadMember. rewrite (bind_done _ _ _ _ _ _ Hs).
  destruct sel as [m|]; [|reflexivity].
  unfold maRemove, callLogged, bind.
  destruct (mapi_Remove E (mapi ma) (client.ID m) w1) as [[e|] w2]; reflexivity.
Qed.

(** X6.  [removeDeadMember] always returns, and in one of two ways.
    Either its search selected nobody: it issues no call and returns the
    error "did not find any dead member".  Or it selected a member of the
    listing: the first that has no peer URL at all or whose inner loop ran
    to its end, which requires every peer URL of the member to parse as a
    discovery node under the member's name; it then issues exactly one
    remove call, for that member's ID, and returns the member when the
    call succeeds and the call's error otherwise.  It never returns a nil
    member together with a nil error. *)
Theorem removeDeadMember_outcomes ma (members : list client.Member) w :
  exists r w' t,
    removeDeadMember E ma members w = (Done r, w', t) /\
    r <> (None, None) /\
    ((searchForDead E ma members w = (Done None, w', []) /\
      r = (None, Some ErrNoDeadMember) /\ t = []) \/
     exists pre m post w1,
       searchForDead E ma members w = (Done (Some m), w1, []) /\
       members = pre ++ m :: post /\
       (forall x, In x pre -> client.PeerURLs x <> []) /\
       (client.PeerURLs m = [] \/
        forall u, In u (client.PeerURLs m) ->
          exists n, NewDiscoveryNode E (client.Name m +:+ "=" +:+ u)
                      (clientPort ma) = Ok n) /\
       t = [CallRemove (client.ID m)] /\
       mapi_Remove E (mapi ma) (client.ID m) w1 = (snd r, w') /\
       fst r = match snd r with None => Some m | Some _ => None end).
Proof.
  destruct (removeDeadMember_run ma members w) as (sel & w1 & Hs & Hr).
  destruct sel as [m|].
  - destruct (searchForDead_Some ma members w m w1 [] Hs)
      as (pre & post & Hms & Hpre & Hm).
    destruct (mapi_Remove E (mapi ma) (client.ID m) w1) as [[e|] w2] eqn:Hrm.
    + exists (None, Some e), w2, [CallRemove (client.ID m)].
      split; [exact Hr|]. split; [discriminate|]. right.
      exists pre, m, post, w1. auto 10.
    + exists (Some m, None), w2, [CallRemove (client.ID m)].
      split; [exact Hr|]. split; [discriminate|]. right.
      exists pre, m, post, w1. auto 10.
  - exists (None, Some ErrNoDeadMember), w1, [].
    split; [exact Hr|]. split; [discriminate|]. left. auto.
Qed.

(** ** The fields of the adder that [Add] reads *)

Lemma applyStrategy_fields endpoints active active' strat port size size'
    fuel ms w :
  applyStrategy E (mkMemberAdder endpoints active strat port size) fuel ms w =
  applyStrategy E (mkMemberAdder endpoints active' strat port size') fuel ms w.
Proof.
  set (ma1 := mkMemberAdder endpoints active strat port size).
  set (ma2 := mkMemberAdder endpoints active' strat port size').
  unfold applyStrategy. cbn [strategy ma1 ma2].
  destruct (String.eqb strat ReplaceStrategy).
  - change (removeDeadMember E ma2 ms) with (removeDeadMember E ma1 ms).
    unfold bind.
    destruct (removeDeadMember_run ma1 ms w) as (sel & w1 & _ & ->).
    destruct sel as [m|]; [|reflexivity].
    destruct (mapi_Remove E (mapi ma1) (client.ID m) w1) as [[e|] w2];
      reflexivity.
  - destruct (String.eqb strat PruneStrategy); reflexivity.
Qed.

(** X7.  The target size and the active nodes held by the adder have no
    influence on [Add]: two adders with the same endpoints, strategy and
    client port behave alike.  The one statement that reads the target
    size stands behind a nil member returned with a nil error, which
    [removeDeadMember] never returns; so under no strategy does [Add]
    refuse to add because the cluster is full. *)
Theorem Add_ignores_target_size (endpoints : list string)
    (active active' : list discovery.Machine) (strat : Strategy)
    (port size size' : Z) (fuel : nat) (name : string) (urls : list string) w :
  Add E (mkMemberAdder endpoints active strat port size) fuel name urls w =
  Add E (mkMemberAdder endpoints active' strat port size') fuel name urls w.
Proof.
  set (ma1 := mkMemberAdder endpoints active strat port size).
  set (ma2 := mkMemberAdder endpoints active' strat port size').
  unfold Add, bind.
  change (maList E ma2 w) with (maList E ma1 w).
  destruct (maList E ma1 w) as [[[[ms|e]| |] w0] t0]; try reflexivity.
  destruct (findUnstartedMember ms urls) as [m|]; [reflexivity|].
  unfold ma1, ma2.
  rewrite (applyStrategy_fields endpoints active active' strat port size size').
  reflexivity.
Qed.

(** ** The replace strategy *)

Lemma applyStrategy_replace ma fuel ms w :
  strategy ma = ReplaceStrategy ->
  exists sel w1,
    searchForDead E ma ms w = (Done sel, w1, []) /\
    applyStrategy E ma fuel ms w =
      match sel with
      | None => (Done (Some ErrNoDeadMember), w1, [])
      | Some m =>
          match mapi_Remove E (mapi ma) (client.ID m) w1 with
          | (None, w2) => (Done None, w2, [CallRemove (client.ID m)])
          | (Some e, w2) => (Done (Some e), w2, [CallRemove (client.ID m)])
          end
      end.
Proof.
  intros Hs. destruct (removeDeadMember_run ma ms w) as (sel & w1 & Hsel & Hr).
  exists sel, w1. split; [exact Hsel|].
  unfold applyStrategy. rewrite Hs. simpl. unfold bind. rewrite Hr.
  destruct sel as [m|]; [|reflexivity].
  destruct (mapi_Remove E (mapi ma) (client.ID m) w1) as [[e|] w2]; reflexivity.
Qed.

Lemma Add_replace_fuel ma fuel fuel' name urls w :
  strategy ma = ReplaceStrategy ->
  Add E ma fuel' name urls w = Add E ma fuel name urls w.
Proof.
  intros Hs. unfold Add, bind.
  destruct (maList E ma w) as [[[[ms|e]| |] w0] t0]; try reflexivity.
  destruct (findUnstartedMember ms urls); [reflexivity|].
  destruct (applyStrategy_replace ma fuel ms w0 Hs) as (sel & w1 & Hsel & ->).
  destruct (applyStrategy_replace ma fuel' ms w0 Hs) as (sel' & w1' & Hsel' & ->).
  rewrite Hsel in Hsel'. injection Hsel' as <- <-. reflexivity.
Qed.

(** X8.  Under the replace strategy [Add] issues at most one remove call,
    for the ID of a member of its own listing, right after the first list
    call and before the quorum guard runs.  Its calls are: the list call
    alone (the listing failed, or no dead member was selected); two list
    calls (an unstarted member matched); or the list call and the remove
    call, followed by nothing when the removal failed, by the guard's list
    call, and then by the add of the caller's first URL when the guard
    passed.  The run ends and does not depend on the fuel. *)
Theorem replace_removes_at_most_once ma (fuel : nat) (name : string)
    (urls : list string) w :
  strategy ma = ReplaceStrategy ->
  ((Add E ma fuel name urls w).2 = [CallList] \/
   (Add E ma fuel name urls w).2 = [CallList; CallList] \/
   exists ms w0 m,
     mapi_List E (mapi ma) w = (Ok ms, w0) /\
     In m ms /\
     findUnstartedMember ms urls = None /\
     ((Add E ma fuel name urls w).2 = [CallList; CallRemove (client.ID m)] \/
      (Add E ma fuel name urls w).2 =
        [CallList; CallRemove (client.ID m); CallList] \/
      exists u0 rest,
        urls = u0 :: rest /\
        (Add E ma fuel name urls w).2 =
          [CallList; CallRemove (client.ID m); CallList; CallAdd u0])) /\
  (Add E ma fuel name urls w).1.1 <> OutOfFuel /\
  forall fuel', Add E ma fuel' name urls w = Add E ma fuel name urls w.
Proof.
  intros Hs.
  split; [|split; [|intros fuel'; apply Add_replace_fuel; exact Hs]].
  - destruct (mapi_List E (mapi ma) w) as [[ms|e] w0] eqn:HL.
    + destruct (findUnstartedMember ms urls) as [m|] eqn:Hf.
      * destruct (protectQuorum_total ma w0) as (q & w1 & Hq).
        rewrite (Add_at_guard _ _ _ _ _ _ _ _ _ _
                   (beforeGuard_found ma fuel urls w ms w0 m HL Hf) Hq).
        right. left. destruct q; reflexivity.
      * pose proof (beforeGuard_not_found ma fuel urls w ms w0 HL Hf) as Hb.
        destruct (applyStrategy_replace ma fuel ms w0 Hs)
          as (sel & w1 & Hsel & Hrun).
        rewrite Hrun in Hb. destruct sel as [m|].
        -- right. right. exists ms, w0, m. split; [reflexivity|].
           apply searchForDead_Some in Hsel as (pre & post & Hms & _).
           split; [rewrite Hms; apply in_elt|]. split; [exact Hf|].
           destruct (mapi_Remove E (mapi ma) (client.ID m) w1) as [[e|] w2].
           ++ left. rewrite (Add_returned _ _ _ _ _ _ _ _ Hb). reflexivity.
           ++ destruct (protectQuorum_total ma w2) as (q & w3 & Hq).
              rewrite (Add_at_guard _ _ _ _ _ _ _ _ _ _ Hb Hq).
              destruct q as [e|]; [right; left; reflexivity|].
              destruct urls as [|u0 rest]; [right; left; reflexivity|].
              right. right. exists u0, rest. split; [reflexivity|].
              destruct (mapi_Add E (mapi ma) u0 w3) as [[added|e] w4];
                reflexivity.
        -- left. rewrite (Add_returned _ _ _ _ _ _ _ _ Hb). reflexivity.
    + rewrite (Add_returned _ _ _ _ _ _ _ _
                 (beforeGuard_list_error ma fuel urls w e w0 HL)).
      left. reflexivity.
  - destruct (mapi_List E (mapi ma) w) as [[ms|e] w0] eqn:HL.
    + destruct (findUnstartedMember ms urls) as [m|] eqn:Hf.
      * destruct (protectQuorum_total ma w0) as (q & w1 & Hq).
        rewrite (Add_at_guard _ _ _ _ _ _ _ _ _ _
                   (beforeGuard_found ma fuel urls w ms w0 m HL Hf) Hq).
        destruct q; discriminate.
      * pose proof (beforeGuard_not_found ma fuel urls w ms w0 HL Hf) as Hb.
        destruct (applyStrategy_replace ma fuel ms w0 Hs)
          as (sel & w1 & Hsel & Hrun).
        rewrite Hrun in Hb. destruct sel as [m|].
        -- destruct (mapi_Remove E (mapi ma) (client.ID m) w1) as [[e|] w2].
           ++ rewrite (Add_returned _ _ _ _ _ _ _ _ Hb). discriminate.
           ++ destruct (protectQuorum_total ma w2) as (q & w3 & Hq).
              rewrite (Add_at_guard _ _ _ _ _ _ _ _ _ _ Hb Hq).
              destruct q as [e|]; [discriminate|].
              destruct urls as [|u0 rest]; [discriminate|].
              destruct (mapi_Add E (mapi ma) u0 w3) as [[added|e] w4];
                discriminate.
        -- rewrite (Add_returned _ _ _ _ _ _ _ _ Hb). discriminate.
    + rewrite (Add_returned _ _ _ _ _ _ _ _
                 (beforeGuard_list_error ma fuel urls w e w0 HL)).
      discriminate.
Qed.

(** ** The calls of [Add] under every strategy *)

Lemma removeDeadMember_issues_listed (P : Call -> Prop) ma ms :
  (forall m, In m ms -> P (CallRemove (client.ID m))) ->
  issuesOnly P (removeDeadMember E ma ms).
Proof.
  intros HP w. destruct (removeDeadMember_run ma ms w) as (sel & w1 & Hs & ->).
  destruct sel as [m|]; [|constructor].
  apply searchForDead_Some in Hs as (pre & post & Hms & _).
  assert (Hm : P (CallRemove (client.ID m))).
  { apply HP. rewrite Hms. apply in_elt. }
  destruct (mapi_Remove E (mapi ma) (client.ID m) w1) as [[e|] w2]; simpl;
    repeat constructor; exact Hm.
Qed.

Lemma pruneLoop_issues_listed (P : Call -> Prop) ma fuel ms :
  (forall m, In m ms -> P (CallRemove (client.ID m))) ->
  issuesOnly P (pruneLoop E ma fuel ms).
Proof.
  intros HP. induction fuel as [|fuel IH]; simpl; [apply issuesOnly_outOfFuel|].
  apply issuesOnly_bind; [apply removeDeadMember_issues_listed, HP|].
  intros [[sel|] [e|]]; first [apply issuesOnly_ret | exact IH].
Qed.

Lemma applyStrategy_issues_listed (P : Call -> Prop) ma fuel ms :
  (forall m, In m ms -> P (CallRemove (client.ID m))) ->
  issuesOnly P (applyStrategy E ma fuel ms).
Proof.
  intros HP. unfold applyStrategy.
  destruct (String.eqb (strategy ma) ReplaceStrategy).
  - apply issuesOnly_bind; [apply removeDeadMember_issues_listed, HP|].
    intros [[sel|] [e|]]; try apply issuesOnly_ret.
    destruct (_ >=? _); apply issuesOnly_ret.
  - destruct (String.eqb (strategy ma) PruneStrategy); [|apply issuesOnly_ret].
    apply issuesOnly_bind; [apply pruneLoop_issues_listed, HP|].
    intros _. apply issuesOnly_ret.
Qed.

(** The removals that precede the guard are removals of listed members,
    under one of the two removing strategies, after a search for an
    unstarted member that found none. *)
Lemma beforeGuard_removes ma fuel urls w id :
  In (CallRemove id) (beforeGuard E ma fuel urls w).2 ->
  exists ms w0 m,
    mapi_List E (mapi ma) w = (Ok ms, w0) /\
    findUnstartedMember ms urls = None /\
    In m ms /\ client.ID m = id /\
    (strategy ma = ReplaceStrategy \/ strategy ma = PruneStrategy).
Proof.
  intros Hin. destruct (mapi_List E (mapi ma) w) as [[ms|e] w0] eqn:HL.
  - destruct (findUnstartedMember ms urls) as [m|] eqn:Hf.
    + rewrite (beforeGuard_found ma fuel urls w ms w0 m HL Hf) in Hin.
      simpl in Hin. exfalso. intuition discriminate.
    + assert (Ht : (beforeGuard E ma fuel urls w).2 =
                   CallList :: (applyStrategy E ma fuel ms w0).2).
      { rewrite (beforeGuard_not_found ma fuel urls w ms w0 HL Hf).
        destruct (applyStrategy E ma fuel ms w0) as [[[[e|]| |] w1] t1];
          reflexivity. }
      rewrite Ht in Hin. destruct Hin as [[=]|Hin].
      assert (Hstrat : strategy ma = ReplaceStrategy \/
                       strategy ma = PruneStrategy).
      { destruct (String.eqb_spec (strategy ma) ReplaceStrategy) as [|H1];
          [left; assumption|].
        destruct (String.eqb_spec (strategy ma) PruneStrategy) as [|H2];
          [right; assumption|].
        rewrite (applyStrategy_other ma fuel ms H1 H2) in Hin. destruct Hin. }
      pose proof (applyStrategy_issues_listed
                    (fun c => match c with
                              | CallRemove id' =>
                                  exists m, In m ms /\ client.ID m = id'
                              | _ => True
                              end) ma fuel ms
                    (fun m Hm => ex_intro _ m (conj Hm eq_refl)) w0) as Hall.
      rewrite Forall_forall in Hall. apply list_elem_of_In in Hin.
      destruct (Hall _ Hin) as (m & Hm & Hid).
      exists ms, w0, m. auto.
  - rewrite (beforeGuard_list_error ma fuel urls w e w0 HL) in Hin.
    simpl in Hin. exfalso. intuition discriminate.
Qed.

(** The calls of [Add] are those made before the guard, followed by
    nothing, by the guard's list call, or by that call and the add. *)
Lemma Add_trace_split ma fuel name urls w :
  (Add E ma fuel name urls w).2 = (beforeGuard E ma fuel urls w).2 \/
  (Add E ma fuel name urls w).2 =
    (beforeGuard E ma fuel urls w).2 ++ [CallList] \/
  exists u0 rest,
    urls = u0 :: rest /\
    (Add E ma fuel name urls w).2 =
      (beforeGuard E ma fuel urls w).2 ++ [CallList; CallAdd u0].
Proof.
  destruct (beforeGuard E ma fuel urls w) as [[[[r|u]| |] w1] t1] eqn:Hb.
  - left. rewrite (Add_returned _ _ _ _ _ _ _ _ Hb). reflexivity.
  - destruct (protectQuorum_total ma w1) as (q & w2 & Hq).
    rewrite (Add_at_guard _ _ _ _ _ _ _ _ _ _ Hb Hq).
    destruct q as [e|]; [right; left; reflexivity|].
    destruct u as [m|]; [right; left; reflexivity|].
    destruct urls as [|u0 rest]; [right; left; reflexivity|].
    right. right. exists u0, rest. split; [reflexivity|].
    destruct (mapi_Add E (mapi ma) u0 w2) as [[added|e] w3]; reflexivity.
  - left. rewrite Add_split. unfold bind. rewrite Hb. reflexivity.
  - left. rewrite Add_split. unfold bind. rewrite Hb. reflexivity.
Qed.

(** X9.  Whatever the strategy, the members-API calls of [Add] fall into
    two parts.  The calls made before the quorum guard contain no add,
    and every remove among them targets the ID of a member of the listing
    that [Add] fetched, under the replace or the prune strategy and only
    after no unstarted member matched.  They are followed by nothing, by
    the guard's list call, or by the guard's list call and one add call,
    which is then the last call and adds the first of the caller's URLs. *)
Theorem Add_call_discipline ma (fuel : nat) (name : string)
    (urls : list string) w :
  exists t1,
    Forall (fun c => isAdd c = false) t1 /\
    (forall id, In (CallRemove id) t1 ->
       exists ms w0 m,
         mapi_List E (mapi ma) w = (Ok ms, w0) /\
         findUnstartedMember ms urls = None /\
         In m ms /\ client.ID m = id /\
         (strategy ma = ReplaceStrategy \/ strategy ma = PruneStrategy)) /\
    ((Add E ma fuel name urls w).2 = t1 \/
     (Add E ma fuel name urls w).2 = t1 ++ [CallList] \/
     exists u0 rest,
       urls = u0 :: rest /\
       (Add E ma fuel name urls w).2 = t1 ++ [CallList; CallAdd u0]).
Proof.
  exists (beforeGuard E ma fuel urls w).2.
  split; [apply (beforeGuard_issues (fun c => isAdd c = false));
          [reflexivity | intros id; reflexivity]|].
  split; [intros id; apply beforeGuard_removes | apply Add_trace_split].
Qed.

(** ** The guard as a majority test *)

Lemma futureQuorum_majority s h :
  0 <= s -> (futureQuorumOf s <= h <-> s + 1 < 2 * h).
Proof.
  intros Hs. unfold futureQuorumOf. rewrite Z.quot_div_nonneg by lia.
  Z.div_mod_to_equations. lia.
Qed.

(** X10.  The quorum guard is a majority test.  With [s] the started
    members of the guard's listing and [h] the listed members that probe
    healthy, the guard passes exactly when [2 * h > s + 1]: the healthy
    members alone are more than half of the started members and the
    newcomer together, so the quorum holds even if the newcomer never
    starts.  Hence it refuses whenever no listed member is healthy, and
    when it refuses it reports [s], [h] and the future quorum. *)
Theorem protectQuorum_majority ma w ms w1 obs w2 :
  mapi_List E (mapi ma) w = (Ok ms, w1) ->
  observeHealth E ms w1 = (Done obs, w2, []) ->
  (protectQuorum E ma w = (Done None, w2, [CallList]) <->
   startedCount ms + 1 < 2 * healthyCount obs) /\
  (protectQuorum E ma w = (Done None, w2, [CallList]) ->
   1 <= healthyCount obs <= Z.of_nat (length ms)) /\
  (~ startedCount ms + 1 < 2 * healthyCount obs ->
   protectQuorum E ma w =
     (Done (Some (ErrQuorumAtRisk (startedCount ms) (healthyCount obs)
                    (Z.quot (startedCount ms + 1) 2 + 1))), w2, [CallList])).
Proof.
  intros HL Ho. pose proof (protectQuorum_run ma w) as Hrun.
  rewrite HL in Hrun. destruct Hrun as (obs' & w2' & Ho' & Hrun).
  rewrite Ho in Ho'. injection Ho' as <- <-. rewrite Hrun.
  assert (Hs : 0 <= startedCount ms) by (unfold startedCount; lia).
  assert (Hh : healthyCount obs <= Z.of_nat (length ms)).
  { rewrite <- (observeHealth_length ms w1 obs w2 [] Ho). unfold healthyCount.
    pose proof (length_filter (fun b => b = true) obs). lia. }
  pose proof (futureQuorum_majority (startedCount ms) (healthyCount obs) Hs)
    as Hmaj.
  fold (futureQuorumOf (startedCount ms)).
  destruct (Z.ltb_spec (healthyCount obs) (futureQuorumOf (startedCount ms)))
    as [Hlt|Hge].
  - split; [split; [discriminate | lia]|]. split; [discriminate|]. reflexivity.
  - split; [split; [lia | reflexivity]|]. split; [lia|]. lia.
Qed.

(** ** The entries of the initial cluster *)

Lemma parseRoster_Done children port : forall nodes w r w' t,
  parseRoster E children port nodes w = (Done r, w', t) ->
  w' = w /\ t = [] /\
  forall n, In n r ->
    In n nodes \/
    exists c v, In c children /\ discovery.Value c = Some v /\
                NewDiscoveryNode E v port = Ok n.
Proof.
  induction children as [|nn rest IH]; intros nodes w r w' t H; simpl in H.
  - injection H as <- <- <-. auto.
  - destruct (discovery.Value nn) as [v|] eqn:Hv; [|discriminate H].
    destruct (NewDiscoveryNode E v port) as [n0|e] eqn:Hn;
      apply IH in H as (-> & -> & Hin); (split; [reflexivity|]);
      (split; [reflexivity|]); intros n Hn'; destruct (Hin n Hn') as [Hold|Hnew].
    + apply in_app_or in Hold as [Hold|[<-|[]]]; [left; exact Hold|].
      right. exists nn, v. split; [left; reflexivity|]. auto.
    + right. destruct Hnew as (c & v' & Hc & Hcv & Hcn).
      exists c, v'. split; [right; exact Hc|]. auto.
    + left. exact Hold.
    + right. destruct Hnew as (c & v' & Hc & Hcv & Hcn).
      exists c, v'. split; [right; exact Hc|]. auto.
Qed.

(** The verdict of the heuristic, from the nodes that probe healthy. *)
Lemma clusterExistingHeuristic_run size ns w :
  exists hs w1,
    healthyAmong E (schedule E ns) w = (Done hs, w1, []) /\
    clusterExistingHeuristic E size (Some ns) w =
      (Done (if Z.of_nat (length ns) <? quorumOf size then None
             else if Z.of_nat (length ns) =? size then Some hs
             else if (0 <? length hs)%nat then Some hs else None, None),
       w1, []).
Proof.
  destruct (probeAll_healthyAmong (schedule E ns) [] w) as (hs & w1 & Hh & Hp).
  simpl in Hp. exists hs, w1. split; [exact Hh|].
  unfold clusterExistingHeuristic. rewrite (bind_done _ _ _ _ _ _ Hp).
  repeat match goal with |- context [if ?b then _ else _] => destruct b end;
    reflexivity.
Qed.

Lemma clusterExistingHeuristic_active size ns w active w' t :
  clusterExistingHeuristic E size (Some ns) w = (Done (Some active, None), w', t) ->
  forall n, In n active -> In n ns.
Proof.
  destruct (clusterExistingHeuristic_run size ns w) as (hs & w1 & Hh & ->).
  intros H n Hn. eapply healthyAmong_roster; [exact Hh|].
  repeat match type of H with
         | context [if ?b then _ else _] => destruct b
         end; inversion H; subst; exact Hn.
Qed.

(** A run of [Join] that emits a configuration, stage by stage. *)
Lemma Join_inv fuel url name adv fresh port cs strat w cfg w' t :
  Join E fuel url name adv fresh port cs strat w = (Done (Ok cfg), w', t) ->
  exists res w1 nodes sz w3 v w4,
    discovery_Value E url "/" w = (Ok res, w1) /\
    parseRoster E (discovery.NodeNodes res) port [] w1 = (Done nodes, w1, []) /\
    targetSizeOf E url cs w1 = (Done (Ok sz), w3, []) /\
    clusterExistingHeuristic E sz (Some nodes) w3 = (Done (v, None), w4, []) /\
    joinDispatch E fuel url name adv fresh port sz strat v w4 =
      (Done (Ok cfg), w', t).
Proof.
  intros H. assert (HJ := H). unfold Join in H.
  apply bind_inv in H as ([res|e] & w1 & t1 & t2 & Hd & H & _);
    [|discriminate H].
  apply bind_inv in H as (nodes & w2 & t3 & t4 & Hp & H & _).
  apply bind_inv in H as ([sz|e] & w3 & t5 & t6 & Hs & H & _);
    [|discriminate H].
  apply bind_inv in H as ([v [e|]] & w4 & t7 & t8 & Hh & H & _);
    [discriminate H|].
  unfold call in Hd.
  destruct (discovery_Value E url "/" w) as [r0 w0] eqn:Hd0.
  injection Hd as -> -> _.
  rewrite (Join_run fuel url name adv fresh port cs strat w
             _ _ _ _ _ _ _ _ _ _ _ Hd0 Hp Hs Hh) in HJ.
  destruct (parseRoster_Done _ _ _ _ _ _ _ Hp) as (-> & -> & _).
  pose proof (issuesOnly_nothing _ w1 (targetSizeOf_issues _ url cs)) as H3.
  rewrite Hs in H3. simpl in H3. subst t5.
  destruct (clusterExistingHeuristic_silent sz (Some nodes) w3)
    as (x & w4' & H4).
  rewrite Hh in H4. injection H4 as _ _ ->.
  exists res, w1, nodes, sz, w3, v, w4. auto 10.
Qed.

(** The initial cluster that the dispatch builds: named URLs of the
    joining node, all of them advertised, before those of the active
    nodes. *)
Lemma joinDispatch_shape fuel url name adv fresh port sz strat v w cfg w' t :
  joinDispatch E fuel url name adv fresh port sz strat v w =
    (Done (Ok cfg), w', t) ->
  exists own,
    InitialCluster cfg = map (nameURL name) own ++ namedURLsOf (default [] v) /\
    forall u, In u own -> In u (splitComma adv).
Proof.
  unfold joinDispatch. intros H. destruct v as [[|n ns]|].
  - destruct fresh; [discriminate H|]. injection H as <- _ _.
    exists []. split; [reflexivity | intros ? []].
  - destruct (splitComma adv) as [|a0 adv'] eqn:Hsplit;
      [exfalso; eapply splitComma_nonempty, Hsplit|].
    cbn [map] in H.
    apply bind_inv in H as ([own|e] & w5 & t9 & t10 & Hown & H & _);
      [|discriminate H].
    injection H as <- _ _. rewrite foldl_named_urls. simpl app.
    destruct (negb (String.eqb strat PreparedStrategy) && fresh).
    + destruct (NewMemberAdder E (n :: ns) strat port sz) as [adder|e];
        [|discriminate Hown].
      apply bind_inv in Hown as ([urls'|e] & w6 & t11 & t12 & HAdd & Hown & _);
        [|discriminate Hown].
      injection Hown as <-. exists urls'. split; [reflexivity|].
      apply Add_success in HAdd as [(m & [_ Hm] & ->)|(u0 & rest & [= <- <-] & ->)].
      * exact Hm.
      * intros u [<-|[]]. left. reflexivity.
    + injection Hown as <-. exists [a0]. split; [reflexivity|].
      intros u [<-|[]]. left. reflexivity.
  - injection H as <- _ _. exists []. split; [reflexivity | intros ? []].
Qed.

(** X11.  Every entry of the initial cluster of an emitted configuration
    is a URL that the joining node advertised, under the node's name, or
    a named peer URL of a node that is registered with the discovery
    service and parsed from its entry.  Nothing the members API returned
    ends up in the configuration, save peer URLs of a recycled member,
    which are among the advertised ones. *)
Theorem Join_initial_cluster_entries (fuel : nat) url name adv (fresh : bool)
    port cs strat w cfg w' t :
  Join E fuel url name adv fresh port cs strat w = (Done (Ok cfg), w', t) ->
  forall x, In x (InitialCluster cfg) ->
    (exists u, In u (splitComma adv) /\ x = nameURL name u) \/
    (exists res w1 c v n,
       discovery_Value E url "/" w = (Ok res, w1) /\
       In c (discovery.NodeNodes res) /\
       discovery.Value c = Some v /\
       NewDiscoveryNode E v port = Ok n /\
       In x (discovery.NamedPeerURLs n)).
Proof.
  intros H x Hx.
  apply Join_inv in H
    as (res & w1 & nodes & sz & w3 & v & w4 & Hd & Hp & _ & Hh & H).
  apply joinDispatch_shape in H as (own & Hic & Hown).
  rewrite Hic in Hx. apply in_app_or in Hx as [Hx|Hx].
  - left. apply in_map_iff in Hx as (u & <- & Hu). eauto.
  - right. destruct v as [active|]; [|destruct Hx].
    unfold namedURLsOf in Hx. apply in_concat in Hx as (l & Hl & Hx).
    apply in_map_iff in Hl as (n & <- & Hn).
    apply (clusterExistingHeuristic_active _ _ _ _ _ _ Hh) in Hn.
    destruct (parseRoster_Done _ _ _ _ _ _ _ Hp) as (_ & _ & Hnodes).
    destruct (Hnodes n Hn) as [[]|(c & v & Hc & Hv & Hcn)].
    exists res, w1, c, v, n. auto.
Qed.

(** ** An unbounded target size *)

Lemma omap_length_le {A B} (f : A -> option B) (l : list A) :
  (length (omap f l) <= length l)%nat.
Proof.
  induction l as [|a l IH]; csimpl; [lia|]. destruct (f a); simpl; lia.
Qed.

(** X12.  With [clusterSize = 0], which stands for an unbounded cluster,
    the size handed to the heuristic is [maxInt] and its quorum [2^62];
    a roster shorter than that is below the quorum whatever the health of
    its nodes, so the heuristic finds no cluster.  [Join] then issues no
    members-API call and emits the configuration of a new cluster that
    points at the discovery URL, be the node fresh or not and under every
    strategy, even when every registered node is healthy. *)
Theorem Join_unbounded_size_bootstraps (fuel : nat) url name adv
    (fresh : bool) port strat w res w1 :
  discovery_Value E url "/" w = (Ok res, w1) ->
  (forall c, In c (discovery.NodeNodes res) -> discovery.Value c <> None) ->
  Z.of_nat (length (discovery.NodeNodes res)) < 2 ^ 62 ->
  exists w',
    Join E fuel url name adv fresh port 0 strat w =
      (Done (Ok {| InitialCluster := [];
                   InitialClusterState := "new";
                   AdvertisePeerURLs := adv;
                   Discovery := url;
                   ConfigName := name |}), w', []).
Proof.
  intros Hd Hv Hlen.
  pose proof (parseRoster_values (discovery.NodeNodes res) port Hv [] w1) as Hp.
  simpl in Hp.
  match type of Hp with _ = (Done ?l, _, _) => set (nodes := l) in * end.
  assert (Hs : targetSizeOf E url 0 w1 = (Done (Ok maxInt), w1, []))
    by reflexivity.
  destruct (clusterExistingHeuristic_run maxInt nodes w1)
    as (hs & w2 & Hh & Hrun).
  assert (Hq : quorumOf maxInt = 2 ^ 62) by (vm_compute; reflexivity).
  assert (Hlt : (Z.of_nat (length nodes) <? quorumOf maxInt) = true).
  { apply Z.ltb_lt. rewrite Hq. eapply Z.le_lt_trans; [|exact Hlen].
    apply Nat2Z.inj_le. unfold nodes. apply omap_length_le. }
  rewrite Hlt in Hrun. exists w2.
  rewrite (Join_run fuel url name adv fresh port 0 strat w
             _ _ _ _ _ _ _ _ _ _ _ Hd Hp Hs Hrun).
  reflexivity.
Qed.

(** ** Where [Join] can panic *)

Lemma bind_panic_inv {A B} (m : M E A) (k : A -> M E B) w msg w' t :
  bind m k w = (Panic msg, w', t) ->
  m w = (Panic msg, w', t) \/
  exists a w1 t1 t2,
    m w = (Done a, w1, t1) /\ k a w1 = (Panic msg, w', t2) /\ t = t1 ++ t2.
Proof.
  unfold bind. destruct (m w) as [[[a| |] w1] t1].
  - destruct (k a w1) as [[r w2] t2] eqn:Hk. intros [= -> -> <-].
    right. exists a, w1, t1, t2. auto.
  - intros [= -> -> ->]. left. reflexivity.
  - discriminate.
Qed.

Lemma removeDeadMember_Done ma ms w :
  exists r w' t, removeDeadMember E ma ms w = (Done r, w', t).
Proof.
  destruct (removeDeadMember_run ma ms w) as (sel & w1 & _ & ->).
  destruct sel as [m|]; [|eauto].
  destruct (mapi_Remove E (mapi ma) (client.ID m) w1) as [[e|] w2]; eauto.
Qed.

Lemma pruneLoop_no_panic ma fuel ms : forall w msg w' t,
  pruneLoop E ma fuel ms w <> (Panic msg, w', t).
Proof.
  induction fuel as [|fuel IH]; intros w msg w' t; simpl; [discriminate|].
  intros H. apply bind_panic_inv in H as [H|(r & w1 & t1 & t2 & _ & H & _)].
  - destruct (removeDeadMember_Done ma ms w) as (r & w1 & t1 & Hr).
    rewrite Hr in H. discriminate H.
  - destruct r as [[sel|] [e|]]; try discriminate H. eapply IH, H.
Qed.

Lemma applyStrategy_no_panic ma fuel ms w msg w' t :
  applyStrategy E ma fuel ms w <> (Panic msg, w', t).
Proof.
  unfold applyStrategy. intros H.
  destruct (String.eqb (strategy ma) ReplaceStrategy).
  - apply bind_panic_inv in H as [H|(r & w1 & t1 & t2 & _ & H & _)].
    + destruct (removeDeadMember_Done ma ms w) as (r & w1 & t1 & Hr).
      rewrite Hr in H. discriminate H.
    + destruct r as [[sel|] [e|]]; try discriminate H.
      destruct (_ >=? _); discriminate H.
  - destruct (String.eqb (strategy ma) PruneStrategy); [|discriminate H].
    apply bind_panic_inv in H as [H|(r & w1 & t1 & t2 & _ & H & _)].
    + eapply pruneLoop_no_panic, H.
    + discriminate H.
Qed.

(** [Add] panics only on its index [urls[0]], when the caller gave no URL. *)
Lemma Add_panic ma fuel name urls w msg w' t :
  Add E ma fuel name urls w = (Panic msg, w', t) -> urls = [].
Proof.
  intros H. rewrite Add_split in H.
  apply bind_panic_inv in H as [H|(p & w1 & t1 & t2 & _ & H & _)].
  - exfalso. unfold beforeGuard in H.
    apply bind_panic_inv in H as [H|(r & w1 & t1 & t2 & _ & H & _)].
    + unfold maList, callLogged in H.
      destruct (mapi_List E (mapi ma) w); discriminate H.
    + destruct r as [ms|e]; [|discriminate H].
      destruct (findUnstartedMember ms urls); [discriminate H|].
      apply bind_panic_inv in H as [H|(s & w2 & t3 & t4 & _ & H & _)].
      * eapply applyStrategy_no_panic, H.
      * destruct s; discriminate H.
  - destruct (protectQuorum_total ma w1) as (q & w2 & Hq).
    destruct p as [r|[m|]]; [discriminate H| |].
    + rewrite (bind_done _ _ _ _ _ _ Hq) in H. destruct q; discriminate H.
    + unfold guardedAdd in H. rewrite (bind_done _ _ _ _ _ _ Hq) in H.
      destruct q as [e|]; [discriminate H|].
      destruct urls as [|u0 rest]; [reflexivity|]. exfalso.
      unfold maAdd, callLogged, bind in H.
      destruct (mapi_Add E (mapi ma) u0 w2) as [[added|e] w3]; discriminate H.
Qed.

Lemma joinDispatch_no_panic fuel url name adv fresh port sz strat v w msg w' t :
  joinDispatch E fuel url name adv fresh port sz strat v w <> (Panic msg, w', t).
Proof.
  unfold joinDispatch. intros H. destruct v as [[|n ns]|];
    [destruct fresh; discriminate H | | discriminate H].
  destruct (splitComma adv) as [|a0 adv'] eqn:Hsplit;
    [eapply splitComma_nonempty, Hsplit|].
  cbn [map] in H.
  apply bind_panic_inv in H as [H|(r & w1 & t1 & t2 & _ & H & _)].
  - destruct (negb (String.eqb strat PreparedStrategy) && fresh);
      [|discriminate H].
    destruct (NewMemberAdder E (n :: ns) strat port sz) as [adder|e];
      [|discriminate H].
    apply bind_panic_inv in H as [H|(a & w1 & t1 & t2 & _ & H & _)].
    + apply Add_panic in H. discriminate H.
    + destruct a; discriminate H.
  - destruct r; discriminate H.
Qed.

Lemma parseRoster_panic children port : forall nodes w msg w' t,
  parseRoster E children port nodes w = (Panic msg, w', t) ->
  msg = "nil pointer dereference" /\ w' = w /\ t = [] /\
  exists c, In c children /\ discovery.Value c = None.
Proof.
  induction children as [|nn rest IH]; intros nodes w msg w' t H; simpl in H;
    [discriminate H|].
  destruct (discovery.Value nn) as [v|] eqn:Hv.
  - destruct (NewDiscoveryNode E v port) as [n|e];
      apply IH in H as (-> & -> & -> & c & Hc & Hcv);
      repeat (split; [reflexivity|]); exists c; split; auto; right; exact Hc.
  - injection H as <- <- <-. repeat (split; [reflexivity|]).
    exists nn. split; [left; reflexivity | exact Hv].
Qed.

Lemma targetSizeOf_panic url cs w msg w' t :
  targetSizeOf E url cs w = (Panic msg, w', t) ->
  msg = "nil pointer dereference" /\ t = [] /\ cs < 0 /\
  exists res,
    discovery_Value E url "/_config/size" w = (Ok res, w') /\
    discovery.NodeValue res = None.
Proof.
  unfold targetSizeOf. destruct (Z.ltb_spec cs 0) as [Hneg|Hpos].
  - unfold bind, call.
    destruct (discovery_Value E url "/_config/size" w) as [[res|e] w1];
      [|discriminate].
    destruct (discovery.NodeValue res) as [v|] eqn:Hv; [discriminate|].
    intros [= <- <- <-]. repeat (split; [reflexivity || exact Hneg|]).
    exists res. auto.
  - destruct (cs =? 0); discriminate.
Qed.

(** X13.  Given a discovery response that carries its node, [Join]
    panics in two places only, both nil dereferences of a value of the
    discovery service: an entry of the roster without a value, and a size
    node without a value when the size is read from the discovery URL.
    No members-API call has been issued by then.  In particular the index
    expressions [advertisedNamedURLs[0]] of [Join] and [urls[0]] of [Add]
    never fail inside [Join], since splitting the advertised URLs always
    yields at least one element. *)
Theorem Join_panics_only_on_nil_value (fuel : nat) url name adv
    (fresh : bool) port cs strat w msg w' t :
  Join E fuel url name adv fresh port cs strat w = (Panic msg, w', t) ->
  msg = "nil pointer dereference" /\ t = [] /\
  exists res w1,
    discovery_Value E url "/" w = (Ok res, w1) /\
    ((w' = w1 /\
      exists c, In c (discovery.NodeNodes res) /\ discovery.Value c = None) \/
     (cs < 0 /\
      exists res',
        discovery_Value E url "/_config/size" w1 = (Ok res', w') /\
        discovery.NodeValue res' = None)).
Proof.
  unfold Join. intros H.
  apply bind_panic_inv in H as [H|(r & w1 & t1 & t2 & Hd & H & ->)].
  { unfold call in H. destruct (discovery_Value E url "/" w); discriminate H. }
  unfold call in Hd. destruct (discovery_Value E url "/" w) as [r0 w0] eqn:Hd0.
  injection Hd as -> -> <-. destruct r as [res|e]; [|discriminate H].
  apply bind_panic_inv in H as [H|(nodes & w2 & t3 & t4 & Hp & H & ->)].
  { apply parseRoster_panic in H as (-> & -> & -> & Hc).
    repeat (split; [reflexivity|]). exists res, w1. auto. }
  destruct (parseRoster_Done _ _ _ _ _ _ _ Hp) as (-> & -> & _).
  apply bind_panic_inv in H as [H|(sz & w3 & t5 & t6 & Hs & H & ->)].
  { apply targetSizeOf_panic in H as (-> & -> & Hneg & Hres).
    repeat (split; [reflexivity|]). exists res, w1. auto. }
  exfalso. destruct sz as [sz|e]; [|discriminate H].
  apply bind_panic_inv in H as [H|(h & w4 & t7 & t8 & _ & H & _)].
  - destruct (clusterExistingHeuristic_silent sz (Some nodes) w3)
      as (x & w4 & Hx).
    rewrite Hx in H. discriminate H.
  - destruct h as [v [e|]]; [discriminate H|].
    eapply joinDispatch_no_panic, H.
Qed.

(** ** A node that is not fresh *)

Lemma parseRoster_cases children port : forall nodes w,
  (exists r, parseRoster E children port nodes w = (Done r, w, [])) \/
  (exists msg, parseRoster E children port nodes w = (Panic msg, w, [])).
Proof.
  induction children as [|nn rest IH]; intros nodes w; simpl.
  - left. eexists. reflexivity.
  - destruct (discovery.Value nn) as [v|]; [|right; eexists; reflexivity].
    destruct (NewDiscoveryNode E v port); apply IH.
Qed.

Lemma targetSizeOf_cases url cs w :
  (exists sz w', targetSizeOf E url cs w = (Done (Ok sz), w', [])) \/
  (exists cause w',
     cs < 0 /\
     targetSizeOf E url cs w = (Done (Err (ErrSizeUnavailable cause)), w', [])) \/
  (exists msg w', targetSizeOf E url cs w = (Panic msg, w', [])).
Proof.
  unfold targetSizeOf. destruct (Z.ltb_spec cs 0) as [Hneg|Hpos].
  - unfold bind, call.
    destruct (discovery_Value E url "/_config/size" w) as [[res|e] w1].
    + destruct (discovery.NodeValue res) as [v|].
      * left. do 2 eexists. reflexivity.
      * right. right. do 2 eexists. reflexivity.
    + right. left. exists e, w1. split; [exact Hneg | reflexivity].
  - left. destruct (cs =? 0); do 2 eexists; reflexivity.
Qed.

(** Without [fresh] the dispatch emits a configuration, the same under
    every strategy, and leaves the world as it is. *)
Lemma joinDispatch_not_fresh url name adv port sz v w :
  exists cfg, forall fuel strat,
    joinDispatch E fuel url name adv false port sz strat v w =
      (Done (Ok cfg), w, []).
Proof.
  unfold joinDispatch. destruct v as [[|n ns]|];
    [eexists; intros; reflexivity | | eexists; intros; reflexivity].
  destruct (splitComma adv) as [|a0 adv'] eqn:Hsplit;
    [exfalso; eapply splitComma_nonempty, Hsplit|].
  cbn [map]. eexists. intros fuel strat. rewrite andb_false_r.
  reflexivity.
Qed.

Lemma Join_not_fresh_run url name adv port cs w :
  exists r w',
    (forall fuel strat,
       Join E fuel url name adv false port cs strat w = (r, w', [])) /\
    r <> OutOfFuel /\
    (forall e, r = Done (Err e) ->
       (exists w1, discovery_Value E url "/" w = (Err e, w1)) \/
       (cs < 0 /\ exists cause, e = ErrSizeUnavailable cause)).
Proof.
  destruct (discovery_Value E url "/" w) as [[res|e] w1] eqn:Hd.
  - destruct (parseRoster_cases (discovery.NodeNodes res) port [] w1)
      as [(nodes & Hp)|(msg & Hp)].
    + destruct (targetSizeOf_cases url cs w1)
        as [(sz & w3 & Hs)|[(cause & w3 & Hneg & Hs)|(msg & w3 & Hs)]].
      * destruct (clusterExistingHeuristic_run sz nodes w3)
          as (hs & w4 & _ & Hh).
        destruct (joinDispatch_not_fresh url name adv port sz
                    (if Z.of_nat (length nodes) <? quorumOf sz then None
                     else if Z.of_nat (length nodes) =? sz then Some hs
                     else if (0 <? length hs)%nat then Some hs else None) w4)
          as (cfg & Hcfg).
        exists (Done (Ok cfg)), w4. split; [|split; discriminate].
        intros fuel strat.
        rewrite (Join_run fuel url name adv false port cs strat w
                   _ _ _ _ _ _ _ _ _ _ _ Hd Hp Hs Hh).
        apply Hcfg.
      * exists (Done (Err (ErrSizeUnavailable cause))), w3.
        split; [|split; [discriminate|]].
        -- intros fuel strat. unfold Join, bind, call.
           rewrite Hd. cbv beta iota. rewrite Hp. cbv beta iota.
           rewrite Hs. reflexivity.
        -- intros e' [= <-]. right. split; [exact Hneg|]. eauto.
      * exists (Panic msg), w3. split; [|split; discriminate].
        intros fuel strat. unfold Join, bind, call.
        rewrite Hd. cbv beta iota. rewrite Hp. cbv beta iota.
        rewrite Hs. reflexivity.
    + exists (Panic msg), w1. split; [|split; discriminate].
      intros fuel strat. unfold Join, bind, call.
      rewrite Hd. cbv beta iota. rewrite Hp. reflexivity.
  - exists (Done (Err e)), w1. split; [|split; [discriminate|]].
    + intros fuel strat. unfold Join, bind, call. rewrite Hd. reflexivity.
    + intros e' [= <-]. left. eauto.
Qed.

(** X14.  For a node that is not fresh, which restarts on its own data,
    [Join] only reads: it issues no members-API call, it does not enter
    the prune loop, and neither the strategy nor the fuel has any
    influence on what it returns.  It can fail only because the
    discovery service failed, on the roster or on the size; in particular
    it never fails with the cluster-down error and never because the
    members API refused something. *)
Theorem Join_restart_reads_only (fuel : nat) url name adv port cs strat w :
  (Join E fuel url name adv false port cs strat w).2 = [] /\
  (Join E fuel url name adv false port cs strat w).1.1 <> OutOfFuel /\
  (forall fuel' strat',
     Join E fuel' url name adv false port cs strat' w =
     Join E fuel url name adv false port cs strat w) /\
  (forall e w' t,
     Join E fuel url name adv false port cs strat w = (Done (Err e), w', t) ->
     (exists w1, discovery_Value E url "/" w = (Err e, w1)) \/
     (cs < 0 /\ exists cause, e = ErrSizeUnavailable cause)).
Proof.
  destruct (Join_not_fresh_run url name adv port cs w)
    as (r & w1 & Hrun & Hr & He).
  rewrite (Hrun fuel strat). simpl.
  split; [reflexivity|]. split; [exact Hr|]. split.
  - intros fuel' strat'. apply Hrun.
  - intros e w' t [= -> _ _]. apply He. reflexivity.
Qed.

(** ** The prune loop and its bound *)

Lemma removedIDs_app t1 t2 :
  removedIDs (t1 ++ t2) = removedIDs t1 ++ removedIDs t2.
Proof.
  induction t1 as [|c t1 IH]; simpl; [reflexivity|].
  destruct c; simpl; rewrite IH; reflexivity.
Qed.

Lemma pruneLoop_S ma fuel ms w :
  pruneLoop E ma (S fuel) ms w =
  match removeDeadMember E ma ms w with
  | (Done (Some _, None), w1, t1) =>
      match pruneLoop E ma fuel ms w1 with (r, w2, t2) => (r, w2, t1 ++ t2) end
  | (Done _, w1, t1) => (Done tt, w1, t1)
  | (Panic msg, w1, t1) => (Panic msg, w1, t1)
  | (OutOfFuel, w1, t1) => (OutOfFuel, w1, t1)
  end.
Proof.
  simpl. unfold bind.
  destruct (removeDeadMember E ma ms w) as [[[[[sel|] [e|]]| |] w1] t1]; simpl;
    rewrite ?app_nil_r; reflexivity.
Qed.

(** The loop runs out of fuel only after as many successful removals as
    it had fuel; a loop that ends is the same under any larger bound. *)
Lemma pruneLoop_fuel ma ms : forall fuel w,
  match pruneLoop E ma fuel ms w with
  | (OutOfFuel, _, t) =>
      length (removedIDs t) = fuel /\ t = map CallRemove (removedIDs t)
  | (Panic _, _, _) => False
  | (Done _, _, _) =>
      forall fuel', (fuel <= fuel')%nat ->
        pruneLoop E ma fuel' ms w = pruneLoop E ma fuel ms w
  end.
Proof.
  induction fuel as [|fuel IH]; intros w.
  - simpl. split; reflexivity.
  - rewrite pruneLoop_S.
    destruct (removeDeadMember_run ma ms w) as (sel & w1 & _ & Hr).
    assert (Hstop : forall r w2 t1,
               removeDeadMember E ma ms w = (Done r, w2, t1) ->
               match r with (Some _, None) => False | _ => True end ->
               forall fuel', (S fuel <= fuel')%nat ->
                 pruneLoop E ma fuel' ms w = (Done tt, w2, t1)).
    { intros r w2 t1 Hrun Hshape [|fuel'] Hle; [lia|].
      rewrite pruneLoop_S, Hrun. destruct r as [[s|] [e|]]; try reflexivity.
      destruct Hshape. }
    destruct sel as [m|].
    + destruct (mapi_Remove E (mapi ma) (client.ID m) w1) as [[e|] w2] eqn:Hrm;
        rewrite Hr.
      * intros fuel' Hle. apply (Hstop _ _ _ Hr I fuel' Hle).
      * specialize (IH w2).
        destruct (pruneLoop E ma fuel ms w2) as [[[[]| |] w3] t2] eqn:Hloop.
        -- intros [|fuel'] Hle; [lia|].
           rewrite pruneLoop_S, Hr, (IH fuel') by lia. reflexivity.
        -- destruct IH.
        -- destruct IH as [Hlen Ht]. simpl. split; [f_equal; exact Hlen|].
           f_equal. exact Ht.
    + rewrite Hr. intros fuel' Hle. apply (Hstop _ _ _ Hr I fuel' Hle).
Qed.

Lemma applyStrategy_fuel ma fuel ms w :
  match applyStrategy E ma fuel ms w with
  | (OutOfFuel, _, t) =>
      strategy ma = PruneStrategy /\
      length (removedIDs t) = fuel /\ t = map CallRemove (removedIDs t)
  | (Panic _, _, _) => False
  | (Done _, _, _) =>
      forall fuel', (fuel <= fuel')%nat ->
        applyStrategy E ma fuel' ms w = applyStrategy E ma fuel ms w
  end.
Proof.
  destruct (String.eqb_spec (strategy ma) ReplaceStrategy) as [Hs|H1].
  - destruct (applyStrategy_replace ma fuel ms w Hs) as (sel & w1 & Hsel & Hr).
    assert (Hsame : forall fuel',
               applyStrategy E ma fuel' ms w = applyStrategy E ma fuel ms w).
    { intros fuel'.
      destruct (applyStrategy_replace ma fuel' ms w Hs)
        as (sel' & w1' & Hsel' & ->).
      rewrite Hsel in Hsel'. injection Hsel' as <- <-. symmetry. exact Hr. }
    rewrite Hr in *. destruct sel as [m|]; [|intros; apply Hsame].
    destruct (mapi_Remove E (mapi ma) (client.ID m) w1) as [[e|] w2];
      intros; apply Hsame.
  - destruct (String.eqb_spec (strategy ma) PruneStrategy) as [Hs|H2].
    + assert (Hrun : forall f,
                 applyStrategy E ma f ms w =
                 match pruneLoop E ma f ms w with
                 | (Done _, w1, t) => (Done None, w1, t)
                 | (Panic msg, w1, t) => (Panic msg, w1, t)
                 | (OutOfFuel, w1, t) => (OutOfFuel, w1, t)
                 end).
      { intros f. unfold applyStrategy.
        apply String.eqb_neq in H1. rewrite H1, Hs. simpl. unfold bind.
        destruct (pruneLoop E ma f ms w) as [[[[]| |] w1] t]; simpl;
          rewrite ?app_nil_r; reflexivity. }
      pose proof (pruneLoop_fuel ma ms fuel w) as Hloop. rewrite (Hrun fuel).
      destruct (pruneLoop E ma fuel ms w) as [[[[]| |] w1] t] eqn:Hp.
      * intros fuel' Hle. rewrite (Hrun fuel'), (Hloop fuel' Hle).
        reflexivity.
      * exact Hloop.
      * split; [exact Hs | exact Hloop].
    + rewrite (applyStrategy_other ma fuel ms H1 H2). intros fuel' _.
      rewrite (applyStrategy_other ma fuel' ms H1 H2). reflexivity.
Qed.

Lemma beforeGuard_fuel ma fuel urls w :
  match beforeGuard E ma fuel urls w with
  | (OutOfFuel, _, t) =>
      strategy ma = PruneStrategy /\
      length (removedIDs t) = fuel /\
      t = CallList :: map CallRemove (removedIDs t)
  | (Panic _, _, _) => False
  | (Done _, _, _) =>
      forall fuel', (fuel <= fuel')%nat ->
        beforeGuard E ma fuel' urls w = beforeGuard E ma fuel urls w
  end.
Proof.
  destruct (mapi_List E (mapi ma) w) as [[ms|e] w0] eqn:HL.
  - destruct (findUnstartedMember ms urls) as [m|] eqn:Hf.
    + rewrite (beforeGuard_found ma fuel urls w ms w0 m HL Hf).
      intros fuel' _. apply (beforeGuard_found ma fuel' urls w ms w0 m HL Hf).
    + rewrite (beforeGuard_not_found ma fuel urls w ms w0 HL Hf).
      pose proof (applyStrategy_fuel ma fuel ms w0) as Hs.
      destruct (applyStrategy E ma fuel ms w0) as [[[[e|]| |] w1] t1] eqn:Ha.
      * intros fuel' Hle.
        rewrite (beforeGuard_not_found ma fuel' urls w ms w0 HL Hf),
          (Hs fuel' Hle). reflexivity.
      * intros fuel' Hle.
        rewrite (beforeGuard_not_found ma fuel' urls w ms w0 HL Hf),
          (Hs fuel' Hle). reflexivity.
      * exact Hs.
      * destruct Hs as (Hp & Hlen & Ht). split; [exact Hp|].
        simpl. split; [exact Hlen | f_equal; exact Ht].
  - rewrite (beforeGuard_list_error ma fuel urls w e w0 HL).
    intros fuel' _. apply (beforeGuard_list_error ma fuel' urls w e w0 HL).
Qed.

(** X15.  The loop of the prune strategy has no bound of its own, and it
    is the only place where [Add] can fail to end.  A run of [Add] that
    exhausts a bound of [fuel] iterations is a run under the prune
    strategy in which the first list call was followed by [fuel] remove
    calls and nothing else: every iteration removed a member
    successfully.  A run that ends is the same under every larger
    bound. *)
Theorem prune_loop_runs_while_removals_succeed ma (fuel : nat)
    (name : string) (urls : list string) w :
  ((Add E ma fuel name urls w).1.1 = OutOfFuel ->
   strategy ma = PruneStrategy /\
   length (removedIDs (Add E ma fuel name urls w).2) = fuel /\
   (Add E ma fuel name urls w).2 =
     CallList :: map CallRemove (removedIDs (Add E ma fuel name urls w).2)) /\
  ((Add E ma fuel name urls w).1.1 <> OutOfFuel ->
   forall fuel', (fuel <= fuel')%nat ->
     Add E ma fuel' name urls w = Add E ma fuel name urls w).
Proof.
  pose proof (beforeGuard_fuel ma fuel urls w) as Hb.
  destruct (beforeGuard E ma fuel urls w) as [[[[r|u]| |] w1] t1] eqn:Hrun.
  - rewrite (Add_returned _ _ _ _ _ _ _ _ Hrun). simpl.
    split; [discriminate|]. intros _ fuel' Hle. apply Add_returned.
    rewrite (Hb fuel' Hle). reflexivity.
  - destruct (protectQuorum_total ma w1) as (q & w2 & Hq).
    assert (Hmono : forall fuel', (fuel <= fuel')%nat ->
               Add E ma fuel' name urls w = Add E ma fuel name urls w).
    { intros fuel' Hle. pose proof (Hb fuel' Hle) as Hb'.
      rewrite (Add_at_guard _ _ _ _ _ _ _ _ _ _ Hrun Hq).
      apply (Add_at_guard _ _ _ _ _ _ _ _ _ _ Hb' Hq). }
    split; [|intros _; exact Hmono].
    rewrite (Add_at_guard _ _ _ _ _ _ _ _ _ _ Hrun Hq).
    destruct q as [e|]; [discriminate|].
    destruct u as [m|]; [discriminate|].
    destruct urls as [|u0 rest]; [discriminate|].
    destruct (mapi_Add E (mapi ma) u0 w2) as [[added|e] w3]; discriminate.
  - destruct Hb.
  - assert (HA : Add E ma fuel name urls w = (OutOfFuel, w1, t1)).
    { rewrite Add_split. unfold bind. rewrite Hrun. reflexivity. }
    rewrite HA. simpl. split; [intros _; exact Hb|].
    intros Hne. exfalso. apply Hne. reflexivity.
Qed.

(** ** Probes that only read the world *)

Lemma aliveURLs_readOnly urls w :
  readOnlyProbes E ->
  aliveURLs E urls w = (Done (existsb (answers E w) urls), w, []).
Proof.
  intros [Hget _]. induction urls as [|u rest IH];
    cbn [aliveURLs existsb]; [reflexivity|].
  unfold bind, call, answers at 1.
  pose proof (Hget (u +:+ ProbingPrefix E) w) as Hw.
  destruct (http_Get E (u +:+ ProbingPrefix E) w) as [[status|e] w1];
    simpl in Hw; subst w1; cbn [fst].
  - destruct (status =? 200); [reflexivity|]. rewrite IH. reflexivity.
  - rewrite IH. reflexivity.
Qed.

Lemma active_readOnly m w :
  readOnlyProbes E ->
  exists e,
    active E m w = (Done (knowsLeader E w m, e), w, []) /\
    (knowsLeader E w m = true -> e = None) /\
    leaderless E w m =
      match e with None => negb (knowsLeader E w m) | Some _ => false end.
Proof.
  intros [_ Hlead]. unfold active, knowsLeader, leaderless.
  destruct (client_New E (client.ClientURLs m)) as [err|].
  - exists (Some err). split; [reflexivity|]. split; [discriminate|reflexivity].
  - unfold bind, call. pose proof (Hlead (client.ClientURLs m) w) as Hw.
    destruct (mapi_Leader E (client.ClientURLs m) w) as [[leader|err] w1];
      simpl in Hw; subst w1; cbn [fst].
    + exists None. destruct leader as [l|]; simpl; auto.
    + exists (Some err). split; [reflexivity|].
      split; [discriminate|reflexivity].
Qed.

Lemma probesHealthy_readOnly m w :
  readOnlyProbes E ->
  probesHealthy E m w = (Done (healthyIn E w m), w, []).
Proof.
  intros H. unfold probesHealthy, healthyIn, alive.
  rewrite (bind_done _ _ _ _ _ _ (aliveURLs_readOnly _ w H)).
  destruct (existsb (answers E w) (client.PeerURLs m)); [|reflexivity].
  destruct (active_readOnly m w H) as (e & Ha & He & _).
  rewrite (bind_done _ _ _ _ _ _ Ha). simpl.
  destruct (knowsLeader E w m); [rewrite He by reflexivity | destruct e];
    reflexivity.
Qed.

Lemma healthyAmong_readOnly order w :
  readOnlyProbes E ->
  healthyAmong E order w =
    (Done (filter (fun n => healthyIn E w (discovery.Member n) = true) order),
     w, []).
Proof.
  intros H. induction order as [|n rest IH]; cbn [healthyAmong];
    [reflexivity|].
  assert (Hn : probeNode E n w =
               (Done (healthyIn E w (discovery.Member n)), w, []))
    by (rewrite probeNode_probesHealthy; apply probesHealthy_readOnly, H).
  rewrite (bind_done _ _ _ _ _ _ Hn), (bind_done _ _ _ _ _ _ IH).
  simpl. rewrite filter_cons.
  destruct (healthyIn E w (discovery.Member n)) eqn:Hh; simpl.
  - destruct (decide (true = true)); [reflexivity | congruence].
  - destruct (decide (false = true)); [congruence | reflexivity].
Qed.

(** X16.  When the probes only read the world, the verdict of the
    existence heuristic does not depend on the order in which its
    goroutines ran, save for the order of the list it returns: the
    heuristic leaves the world as it found it, and a verdict that is a
    list holds exactly the nodes of the roster that are healthy in that
    world, each as often as the roster lists it.  A list is returned when
    the roster reaches the quorum and is full or has a healthy node; nil
    is returned when the roster is below the quorum, or is not full and
    has no healthy node. *)
Theorem heuristic_reports_healthy_nodes (size : Z)
    (ns : list discovery.Machine) w :
  readOnlyProbes E ->
  exists verdict,
    clusterExistingHeuristic E size (Some ns) w = (Done (verdict, None), w, []) /\
    (forall active,
       verdict = Some active ->
       Permutation active
         (filter (fun n => healthyIn E w (discovery.Member n) = true) ns) /\
       quorumOf size <= Z.of_nat (length ns) /\
       (Z.of_nat (length ns) = size \/ active <> [])) /\
    (verdict = None ->
     Z.of_nat (length ns) < quorumOf size \/
     (Z.of_nat (length ns) <> size /\
      forall n, In n ns -> healthyIn E w (discovery.Member n) = false)).
Proof.
  intros H.
  destruct (clusterExistingHeuristic_run size ns w) as (hs & w1 & Hh & Hrun).
  rewrite (healthyAmong_readOnly _ w H) in Hh. injection Hh as <- <-.
  set (healthy := fun n => healthyIn E w (discovery.Member n) = true) in *.
  assert (Hperm : Permutation (filter healthy (schedule E ns))
                    (filter healthy ns)).
  { apply filter_Permutation, schedule_perm. }
  eexists. split; [exact Hrun|].
  destruct (Z.ltb_spec (Z.of_nat (length ns)) (quorumOf size)) as [Hlt|Hge].
  { split; [discriminate | intros _; left; exact Hlt]. }
  destruct (Z.eqb_spec (Z.of_nat (length ns)) size) as [Heq|Hne].
  { split; [|discriminate]. intros active [= <-]. auto. }
  destruct (filter healthy (schedule E ns)) as [|h hs] eqn:Hf; simpl.
  - split; [discriminate|]. intros _. right. split; [exact Hne|].
    intros n Hn. destruct (healthyIn E w (discovery.Member n)) eqn:Hhn;
      [|reflexivity].
    exfalso. apply Permutation_nil in Hperm.
    apply (filter_nil_not_elem_of healthy ns n);
      [symmetry in Hperm; rewrite <- Hperm; reflexivity | exact Hhn |].
    apply list_elem_of_In. exact Hn.
  - split; [|discriminate]. intros active [= <-].
    split; [exact Hperm|]. split; [exact Hge|]. right. discriminate.
Qed.

(** *** The search for a dead member *)

Lemma looksDead_readOnly ma name urls w :
  readOnlyProbes E ->
  looksDead E ma name urls w =
    (Done (forallb (deadURL E (clientPort ma) w name) urls), w, []).
Proof.
  intros H. induction urls as [|u rest IH]; cbn [looksDead forallb];
    [reflexivity|].
  unfold deadURL at 1.
  destruct (NewDiscoveryNode E (name +:+ "=" +:+ u) (clientPort ma)) as [n|e];
    [|reflexivity].
  unfold alive.
  rewrite (bind_done _ _ _ _ _ _ (aliveURLs_readOnly _ w H)).
  destruct (existsb (answers E w) (client.PeerURLs (discovery.Member n)));
    cbn [negb orb andb].
  - destruct (active_readOnly (discovery.Member n) w H) as (e & Ha & He & Hl).
    rewrite (bind_done _ _ _ _ _ _ Ha), Hl.
    destruct e as [e|];
      [destruct (knowsLeader E w (discovery.Member n)); reflexivity|].
    destruct (knowsLeader E w (discovery.Member n)); cbn [negb andb];
      [reflexivity|].
    rewrite IH. reflexivity.
  - rewrite IH. reflexivity.
Qed.

Lemma searchForDead_readOnly ma ms w :
  readOnlyProbes E ->
  searchForDead E ma ms w =
    (Done (List.find (deadIn E (clientPort ma) w) ms), w, []).
Proof.
  intros H. induction ms as [|m rest IH]; cbn [searchForDead List.find];
    [reflexivity|].
  unfold deadIn at 1.
  destruct (client.PeerURLs m) as [|u us] eqn:Hp; [reflexivity|].
  cbn [length Nat.eqb]. rewrite <- Hp.
  rewrite (bind_done _ _ _ _ _ _ (looksDead_readOnly ma _ _ w H)).
  destruct (forallb _ _); [reflexivity|]. rewrite IH. reflexivity.
Qed.

(** X17.  When the probes only read the world, [removeDeadMember] removes
    the first member of the listing that is dead in that world, and
    nothing is removed when there is none.  A member is dead when it has
    no peer URL, or when each of its peer URLs parses as a discovery node
    under the member's name and that node does not answer its probe, or
    answers while its leader query succeeds and names nobody.  So a
    member with a peer URL that does not parse, or whose node answers and
    names a leader, or whose node answers while its leader query fails,
    is never removed. *)
Theorem removeDeadMember_selects_first_dead ma
    (ms : list client.Member) w :
  readOnlyProbes E ->
  searchForDead E ma ms w =
    (Done (List.find (deadIn E (clientPort ma) w) ms), w, []) /\
  (removeDeadMember E ma ms w).2 =
    match List.find (deadIn E (clientPort ma) w) ms with
    | Some m => [CallRemove (client.ID m)]
    | None => []
    end /\
  forall m u,
    List.find (deadIn E (clientPort ma) w) ms = Some m ->
    In u (client.PeerURLs m) ->
    exists n,
      NewDiscoveryNode E (client.Name m +:+ "=" +:+ u) (clientPort ma) = Ok n /\
      (existsb (answers E w) (client.PeerURLs (discovery.Member n)) = false \/
       leaderless E w (discovery.Member n) = true).
Proof.
  intros H. pose proof (searchForDead_readOnly ma ms w H) as Hs.
  split; [exact Hs|]. split.
  - destruct (removeDeadMember_run ma ms w) as (sel & w1 & Hsel & ->).
    rewrite Hs in Hsel. injection Hsel as <- <-.
    destruct (List.find _ ms) as [m|]; [|reflexivity].
    destruct (mapi_Remove E (mapi ma) (client.ID m) w) as [[e|] w2];
      reflexivity.
  - intros m u Hf Hu. apply find_some in Hf as [_ Hdead].
    unfold deadIn in Hdead. rewrite forallb_forall in Hdead.
    specialize (Hdead u Hu). unfold deadURL in Hdead.
    destruct (NewDiscoveryNode E _ _) as [n|e]; [|discriminate Hdead].
    exists n. split; [reflexivity|].
    apply orb_true_iff in Hdead as [Hd|Hd]; [left|right; exact Hd].
    apply negb_true_iff, Hd.
Qed.

(** *** One member per run *)

Lemma sameProbes_trans w1 w2 w3 :
  sameProbes E w1 w2 -> sameProbes E w2 w3 -> sameProbes E w1 w3.
Proof.
  intros [H1 H2] [H3 H4]. split; intros; [rewrite H3, H1 | rewrite H4, H2];
    reflexivity.
Qed.

Lemma sameProbes_refl w : sameProbes E w w.
Proof. split; reflexivity. Qed.

Lemma deadIn_sameProbes port w w' m :
  sameProbes E w w' -> deadIn E port w' m = deadIn E port w m.
Proof.
  intros [Hg Hl]. unfold deadIn.
  assert (Hans : forall us,
             existsb (answers E w') us = existsb (answers E w) us).
  { induction us as [|u us IH]; simpl; [reflexivity|].
    rewrite IH. unfold answers. rewrite Hg. reflexivity. }
  assert (Hll : forall x, leaderless E w' x = leaderless E w x).
  { intros x. unfold leaderless. rewrite Hl. reflexivity. }
  induction (client.PeerURLs m) as [|u us IH]; simpl; [reflexivity|].
  rewrite IH. f_equal. unfold deadURL.
  destruct (NewDiscoveryNode E _ port) as [n|e]; [|reflexivity].
  rewrite Hll, Hans. reflexivity.
Qed.

Lemma find_same {A} (f g : A -> bool) (l : list A) :
  (forall x, f x = g x) -> List.find f l = List.find g l.
Proof.
  intros H. induction l as [|a l IH]; simpl; [reflexivity|].
  rewrite H, IH. reflexivity.
Qed.

Lemma pruneLoop_one_member ma ms w sel :
  readOnlyProbes E -> removalKeepsProbes E ->
  List.find (deadIn E (clientPort ma) w) ms = sel ->
  forall fuel w', sameProbes E w w' ->
    Forall (fun c => exists m, sel = Some m /\ c = CallRemove (client.ID m))
      (pruneLoop E ma fuel ms w').2.
Proof.
  intros Hro Hkeep Hfind. induction fuel as [|fuel IH]; intros w' Hsame;
    [constructor|].
  rewrite pruneLoop_S.
  destruct (removeDeadMember_run ma ms w') as (s & w1 & Hs & ->).
  rewrite (searchForDead_readOnly ma ms w' Hro) in Hs. injection Hs as <- <-.
  rewrite (find_same _ _ ms
             (fun m => deadIn_sameProbes (clientPort ma) w w' m Hsame)), Hfind.
  destruct sel as [m|]; [|constructor].
  pose proof (Hkeep (mapi ma) (client.ID m) w') as Hrm.
  destruct (mapi_Remove E (mapi ma) (client.ID m) w') as [[e|] w2];
    simpl in Hrm |- *.
  - constructor; [eauto | constructor].
  - specialize (IH w2 (sameProbes_trans _ _ _ Hsame Hrm)).
    destruct (pruneLoop E ma fuel ms w2) as [[r w3] t2]. simpl in *.
    constructor; [eauto | exact IH].
Qed.

Lemma applyStrategy_one_member ma fuel ms w :
  readOnlyProbes E -> removalKeepsProbes E ->
  Forall (fun c => exists m,
            List.find (deadIn E (clientPort ma) w) ms = Some m /\
            c = CallRemove (client.ID m))
    (applyStrategy E ma fuel ms w).2.
Proof.
  intros Hro Hkeep.
  destruct (String.eqb_spec (strategy ma) ReplaceStrategy) as [Hs|H1].
  - destruct (applyStrategy_replace ma fuel ms w Hs) as (sel & w1 & Hsel & ->).
    rewrite (searchForDead_readOnly ma ms w Hro) in Hsel.
    injection Hsel as <- <-.
    destruct (List.find (deadIn E (clientPort ma) w) ms) as [m|];
      [|constructor].
    destruct (mapi_Remove E (mapi ma) (client.ID m) w) as [[e|] w2]; simpl;
      (constructor; [eauto | constructor]).
  - destruct (String.eqb_spec (strategy ma) PruneStrategy) as [Hs|H2].
    + pose proof (pruneLoop_one_member ma ms w _ Hro Hkeep eq_refl fuel w
                    (sameProbes_refl w)) as Hp.
      unfold applyStrategy. apply String.eqb_neq in H1. rewrite H1, Hs.
      simpl. unfold bind.
      destruct (pruneLoop E ma fuel ms w) as [[[[]| |] w1] t]; simpl in *;
        rewrite ?app_nil_r; exact Hp.
    + rewrite (applyStrategy_other ma fuel ms H1 H2). constructor.
Qed.

(** X18.  When the probes only read the world and the removal of a member
    does not change what they answer, all the remove calls of one run of
    [Add] carry the same ID: that of the first member of the listing
    that is dead in the world after the list call.  The listing is
    fetched once and searched again on every round of the prune loop, so
    the loop selects the member it has just removed; a second dead member
    of the listing is never removed by the same run, whatever the
    strategy and however long the loop runs. *)
Theorem Add_removes_one_member ma (fuel : nat) (name : string)
    (urls : list string) w :
  readOnlyProbes E -> removalKeepsProbes E ->
  (forall id,
     In (CallRemove id) (Add E ma fuel name urls w).2 ->
     exists ms w0 m,
       mapi_List E (mapi ma) w = (Ok ms, w0) /\
       List.find (deadIn E (clientPort ma) w0) ms = Some m /\
       id = client.ID m) /\
  (forall id1 id2,
     In (CallRemove id1) (Add E ma fuel name urls w).2 ->
     In (CallRemove id2) (Add E ma fuel name urls w).2 ->
     id1 = id2).
Proof.
  intros Hro Hkeep.
  assert (Hone : forall id,
             In (CallRemove id) (Add E ma fuel name urls w).2 ->
             exists ms w0 m,
               mapi_List E (mapi ma) w = (Ok ms, w0) /\
               List.find (deadIn E (clientPort ma) w0) ms = Some m /\
               id = client.ID m).
  { intros id Hin.
    assert (Hb : In (CallRemove id) (beforeGuard E ma fuel urls w).2).
    { destruct (Add_trace_split ma fuel name urls w)
        as [Ht|[Ht|(u0 & rest & _ & Ht)]]; rewrite Ht in Hin;
        [exact Hin | |];
        apply in_app_or in Hin as [Hin|Hin]; try exact Hin;
        exfalso; simpl in Hin; intuition discriminate. }
    destruct (mapi_List E (mapi ma) w) as [[ms|e] w0] eqn:HL.
    - destruct (findUnstartedMember ms urls) as [m|] eqn:Hf.
      + rewrite (beforeGuard_found ma fuel urls w ms w0 m HL Hf) in Hb.
        simpl in Hb. exfalso. intuition discriminate.
      + assert (Ht : (beforeGuard E ma fuel urls w).2 =
                     CallList :: (applyStrategy E ma fuel ms w0).2).
        { rewrite (beforeGuard_not_found ma fuel urls w ms w0 HL Hf).
          destruct (applyStrategy E ma fuel ms w0) as [[[[e|]| |] w1] t1];
            reflexivity. }
        rewrite Ht in Hb. destruct Hb as [[=]|Hb].
        pose proof (applyStrategy_one_member ma fuel ms w0 Hro Hkeep) as Hall.
        rewrite Forall_forall in Hall. apply list_elem_of_In in Hb.
        destruct (Hall _ Hb) as (m & Hm & [= ->]).
        exists ms, w0, m. auto.
    - rewrite (beforeGuard_list_error ma fuel urls w e w0 HL) in Hb.
      simpl in Hb. exfalso. intuition discriminate. }
  split; [exact Hone|].
  intros id1 id2 H1 H2.
  destruct (Hone id1 H1) as (ms & w0 & m & HL & Hf & ->).
  destruct (Hone id2 H2) as (ms' & w0' & m' & HL' & Hf' & ->).
  rewrite HL in HL'. injection HL' as <- <-.
  rewrite Hf in Hf'. injection Hf' as <-. reflexivity.
Qed.

(** ** [Join] around [Add] *)

Lemma foldl_client_urls nodes : forall acc,
  foldl (fun acc an => acc ++ client.ClientURLs (discovery.Member an)) acc nodes =
  acc ++ concat (map (fun an => client.ClientURLs (discovery.Member an)) nodes).
Proof.
  induction nodes as [|n rest IH]; intros acc; simpl.
  - rewrite app_nil_r. reflexivity.
  - rewrite IH, <- app_assoc. reflexivity.
Qed.

(** X19.  For a fresh node that finds a running cluster, under a strategy
    other than prepared, [Join] is [Add] in a wrapper.  The adder is
    given the client URLs of the active nodes, in their order, as its
    endpoints; an error of [client.New] is returned as it is and nothing
    is called.  Otherwise [Add] runs on the advertised URLs split at the
    commas, and its calls are all the calls of [Join].  The URLs it
    returns, under the node's name, stand in front of the named URLs of
    the active nodes in an "existing" configuration; its error comes
    back wrapped with the node's name and advertised URLs. *)
Theorem Join_fresh_node_runs_Add (fuel : nat) url name adv port cs strat w
    res w1 nodes w2 t2 sz w3 t3 active w4 t4 :
  discovery_Value E url "/" w = (Ok res, w1) ->
  parseRoster E (discovery.NodeNodes res) port [] w1 = (Done nodes, w2, t2) ->
  targetSizeOf E url cs w2 = (Done (Ok sz), w3, t3) ->
  clusterExistingHeuristic E sz (Some nodes) w3 =
    (Done (Some active, None), w4, t4) ->
  active <> [] ->
  strat <> PreparedStrategy ->
  Join E fuel url name adv true port cs strat w =
    match client_New E
            (concat (map (fun n => client.ClientURLs (discovery.Member n))
                         active)) with
    | Some err => (Done (Err err), w4, [])
    | None =>
        match Add E (mkMemberAdder
                       (concat (map (fun n => client.ClientURLs
                                                (discovery.Member n)) active))
                       active strat port sz)
                fuel name (splitComma adv) w4 with
        | (Done (Ok urls'), w5, t) =>
            (Done (Ok {| InitialCluster :=
                           map (nameURL name) urls' ++ namedURLsOf active;
                         InitialClusterState := "existing";
                         AdvertisePeerURLs := adv;
                         Discovery := "";
                         ConfigName := name |}), w5, t)
        | (Done (Err e), w5, t) =>
            (Done (Err (ErrJoinFailed name adv e)), w5, t)
        | (Panic msg, w5, t) => (Panic msg, w5, t)
        | (OutOfFuel, w5, t) => (OutOfFuel, w5, t)
        end
    end.
Proof.
  intros Hd Hp Hs Hh Hact Hstrat.
  rewrite (Join_run fuel url name adv true port cs strat w
             _ _ _ _ _ _ _ _ _ _ _ Hd Hp Hs Hh).
  unfold joinDispatch. destruct active as [|n ns]; [congruence|].
  destruct (splitComma adv) as [|a0 adv'] eqn:Hsplit;
    [exfalso; eapply splitComma_nonempty, Hsplit|].
  cbn [map]. apply String.eqb_neq in Hstrat. rewrite Hstrat.
  cbn [negb andb]. unfold NewMemberAdder.
  rewrite (foldl_client_urls (n :: ns) []). cbn [app].
  destruct (client_New E _) as [err|]; [reflexivity|].
  unfold bind.
  destruct (Add E _ fuel name (a0 :: adv') w4) as [[[[urls'|e]| |] w5] t];
    simpl; rewrite ?app_nil_r, ?foldl_named_urls; reflexivity.
Qed.

End Properties.

(** * Runs on the reference environment *)

(** The scenarios of the specification, on a cluster of [a] and [b]. *)
Example scenario_healthy_cluster_add :
  Join Ref.env 1 "http://disco/x" "n" "http://n:2380" true 2379 3 AddStrategy
    (Ref.cluster [Ref.member "a"; Ref.member "b"] ["a"; "b"] ["a"; "b"]) =
  (Done (Ok {| InitialCluster :=
                 ["n=http://n:2380"; "a=http://a:2380"; "b=http://b:2380"];
               InitialClusterState := "existing";
               AdvertisePeerURLs := "http://n:2380";
               Discovery := "";
               ConfigName := "n" |}),
   Ref.cluster [Ref.member "a"; Ref.member "b";
                Ref.unstarted "id-http://n:2380" ["http://n:2380"]]
     ["a"; "b"] ["a"; "b"],
   [CallList; CallList; CallAdd "http://n:2380"]).
Proof. vm_compute. reflexivity. Qed.

Example scenario_replace_one_dead :
  Join Ref.env 1 "http://disco/x" "n" "http://n:2380" true 2379 3 ReplaceStrategy
    (Ref.cluster [Ref.member "a"; Ref.member "b"; Ref.member "c"]
       ["a"; "b"] ["a"; "b"; "c"]) =
  (Done (Ok {| InitialCluster :=
                 ["n=http://n:2380"; "a=http://a:2380"; "b=http://b:2380"];
               InitialClusterState := "existing";
               AdvertisePeerURLs := "http://n:2380";
               Discovery := "";
               ConfigName := "n" |}),
   Ref.cluster [Ref.member "a"; Ref.member "b";
                Ref.unstarted "id-http://n:2380" ["http://n:2380"]]
     ["a"; "b"] ["a"; "b"; "c"],
   [CallList; CallRemove "id-c"; CallList; CallAdd "http://n:2380"]).
Proof. vm_compute. reflexivity. Qed.

Example scenario_quorum_at_risk :
  let w := Ref.cluster [Ref.member "a"; Ref.member "b"; Ref.member "c"]
             ["a"] ["a"; "b"; "c"] in
  Join Ref.env 1 "http://disco/x" "n" "http://n:2380" true 2379 3 AddStrategy w =
  (Done (Err (ErrJoinFailed "n" "http://n:2380" (ErrQuorumAtRisk 3 1 3))),
   w, [CallList; CallList]).
Proof. vm_compute. reflexivity. Qed.

Example scenario_cold_boot :
  let w := Ref.cluster [] [] [] in
  Join Ref.env 1 "http://disco/x" "n" "http://n:2380" true 2379 3 ReplaceStrategy w =
  (Done (Ok {| InitialCluster := [];
               InitialClusterState := "new";
               AdvertisePeerURLs := "http://n:2380";
               Discovery := "http://disco/x";
               ConfigName := "n" |}), w, []).
Proof. vm_compute. reflexivity. Qed.

Example scenario_below_quorum :
  let w := Ref.cluster [] [] ["a"] in
  Join Ref.env 1 "http://disco/x" "n" "http://n:2380" true 2379 3 ReplaceStrategy w =
  (Done (Ok {| InitialCluster := [];
               InitialClusterState := "new";
               AdvertisePeerURLs := "http://n:2380";
               Discovery := "http://disco/x";
               ConfigName := "n" |}), w, []).
Proof. vm_compute. reflexivity. Qed.

(** ** The quorum guard *)

(** C1, as stated, fails.  The listing has three members, two started and
    healthy and one unstarted; with [m = 3] the claim wants three healthy
    members, yet the guard passes with two and [Add] goes on to add. *)
Lemma quorum_guard_counts_started_members :
  let ms := [Ref.member "a"; Ref.member "b";
             Ref.unstarted "id-c" ["http://c:2380"]] in
  let obs := [true; true; false] in
  let w := Ref.cluster ms ["a"; "b"] ["a"; "b"] in
  let ma := Ref.adder ["a"; "b"] AddStrategy 5 in
  mapi_List Ref.env (mapi ma) w = (Ok ms, w) /\
  observeHealth Ref.env ms w = (Done obs, w, []) /\
  protectQuorum Ref.env ma w = (Done None, w, [CallList]) /\
  healthyCount obs < Z.quot (Z.of_nat (length ms) + 1) 2 + 1 /\
  ~ ((exists w1, protectQuorum Ref.env ma w = (Done None, w1, [CallList])) <->
     Z.quot (Z.of_nat (length ms) + 1) 2 + 1 <= healthyCount obs) /\
  (Add Ref.env ma 1 "n" ["http://n:2380"] w).1.1 = Done (Ok ["http://n:2380"]) /\
  (Add Ref.env ma 1 "n" ["http://n:2380"] w).2 =
    [CallList; CallList; CallAdd "http://n:2380"].
Proof.
  intros ms obs w ma.
  assert (Hq : protectQuorum Ref.env ma w = (Done None, w, [CallList]))
    by (vm_compute; reflexivity).
  assert (Hlt : healthyCount obs < Z.quot (Z.of_nat (length ms) + 1) 2 + 1)
    by (vm_compute; reflexivity).
  repeat split; try (vm_compute; reflexivity); try assumption.
  intros [H _]. apply Z.lt_nge in Hlt. apply Hlt, H. exists w. exact Hq.
Qed.

(** The amended statement at work: a run in which [Add] succeeds after a
    passing guard, and one in which the guard fails. *)
Lemma quorum_guard_gates_add_witness :
  let w := Ref.cluster [Ref.member "a"; Ref.member "b"] ["a"; "b"] ["a"; "b"] in
  let w' := Ref.cluster [Ref.member "a"; Ref.member "b"; Ref.member "c"]
              ["a"] ["a"; "b"; "c"] in
  let ma := Ref.adder ["a"; "b"] AddStrategy 3 in
  let urls := ["http://n:2380"] in
  (exists u w1 t1 w2,
     beforeGuard Ref.env ma 1 urls w = (Done (AtGuard u), w1, t1) /\
     protectQuorum Ref.env ma w1 = (Done None, w2, [CallList]) /\
     Forall (fun c => isAdd c = false) t1 /\
     match u with
     | Some m =>
         urls = client.PeerURLs m /\
         Ref.cluster [Ref.member "a"; Ref.member "b";
                      Ref.unstarted "id-http://n:2380" urls]
           ["a"; "b"] ["a"; "b"] = w2 /\
         [CallList; CallList; CallAdd "http://n:2380"] = t1 ++ [CallList]
     | None =>
         exists u0 rest added,
           urls = u0 :: rest /\ urls = [u0] /\
           mapi_Add Ref.env (mapi ma) u0 w2 =
             (Ok added,
              Ref.cluster [Ref.member "a"; Ref.member "b";
                           Ref.unstarted "id-http://n:2380" urls]
                ["a"; "b"] ["a"; "b"]) /\
           [CallList; CallList; CallAdd "http://n:2380"] =
             t1 ++ [CallList; CallAdd u0]
     end) /\
  Add Ref.env ma 1 "n" urls w' =
    (Done (Err (ErrQuorumAtRisk 3 1 3)), w', [CallList] ++ [CallList]).
Proof.
  intros w w' ma urls. split.
  - refine (proj1 (proj2 (quorum_guard_gates_add Ref.env ma 1 "n" urls w))
              urls _ _ _).
    vm_compute. reflexivity.
  - refine (proj1 (proj2 (proj2 (quorum_guard_gates_add Ref.env ma 1 "n" urls w'))
                     None w' [CallList] (ErrQuorumAtRisk 3 1 3) w' [CallList]
                     _ _)).
    + vm_compute. reflexivity.
    + vm_compute. reflexivity.
Defined.

(** ** The strategies *)

(** C2: the code at the failing inputs.  Under the replace strategy, with
    every member healthy, [Add] returns the error of [removeDeadMember],
    whether the membership is below the target size (two members of three)
    or at it (three of three): it neither goes on to the guard and the add
    nor reports the full cluster. *)
Theorem replace_without_dead_member_aborts :
  let w2 := Ref.cluster [Ref.member "a"; Ref.member "b"] ["a"; "b"] ["a"; "b"] in
  let w3 := Ref.cluster [Ref.member "a"; Ref.member "b"; Ref.member "c"]
              ["a"; "b"; "c"] ["a"; "b"; "c"] in
  Add Ref.env (Ref.adder ["a"; "b"] ReplaceStrategy 3) 1 "n" ["http://n:2380"] w2 =
    (Done (Err ErrNoDeadMember), w2, [CallList]) /\
  Add Ref.env (Ref.adder ["a"; "b"; "c"] ReplaceStrategy 3) 1 "n"
    ["http://n:2380"] w3 =
    (Done (Err ErrNoDeadMember), w3, [CallList]).
Proof. split; vm_compute; reflexivity. Qed.


(** C7: the code at the failing input.  Under the prune strategy, with one
    dead member [c], the loop searches the listing it was given once more
    after the removal has succeeded, selects [c] again and issues a second
    remove for the same id; that one fails and ends the loop. *)
Theorem prune_removes_the_same_member_twice :
  let w := Ref.cluster [Ref.member "a"; Ref.member "b"; Ref.member "c"]
             ["a"; "b"] ["a"; "b"; "c"] in
  let run := Add Ref.env (Ref.adder ["a"; "b"] PruneStrategy 3) 2 "n"
               ["http://n:2380"] w in
  run.1.1 = Done (Ok ["http://n:2380"]) /\
  run.2 = [CallList; CallRemove "id-c"; CallRemove "id-c"; CallList;
           CallAdd "http://n:2380"] /\
  removedIDs run.2 = ["id-c"; "id-c"].
Proof. repeat split; vm_compute; reflexivity. Qed.

(** With a second dead member [d] the repeated removal of [c] ends the
    loop all the same, and [d] stays. *)
Example prune_leaves_the_second_dead_member :
  let w := Ref.cluster [Ref.member "a"; Ref.member "b"; Ref.member "c";
                        Ref.member "d"] ["a"; "b"] ["a"; "b"] in
  let run := Add Ref.env (Ref.adder ["a"; "b"] PruneStrategy 4) 3 "n"
               ["http://n:2380"] w in
  removedIDs run.2 = ["id-c"; "id-c"] /\
  Ref.members run.1.2 = [Ref.member "a"; Ref.member "b"; Ref.member "d"].
Proof. split; vm_compute; reflexivity. Qed.

(** ** The unstarted slot *)


(** ** The emitted configuration *)

(** The dormant cluster of the specification: three registered nodes, none
    reachable, target size three. *)
Lemma Join_dormant_cluster_witness :
  let w := Ref.cluster [] [] ["a"; "b"; "c"] in
  let nodes := map Ref.machine ["a"; "b"; "c"] in
  clusterExistingHeuristic Ref.env 3 (Some nodes) w =
    (Done (Some [], None), w, []) /\
  Join Ref.env 1 "http://disco/x" "n" "http://n:2380" true 2379 3
    ReplaceStrategy w = (Done (Err ErrClusterDown), w, []) /\
  Join Ref.env 1 "http://disco/x" "n" "http://n:2380" false 2379 3
    ReplaceStrategy w =
    (Done (Ok {| InitialCluster := [];
                 InitialClusterState := "existing";
                 AdvertisePeerURLs := "http://n:2380";
                 Discovery := "";
                 ConfigName := "n" |}), w, []).
Proof.
  intros w nodes.
  assert (Hd : discovery_Value Ref.env "http://disco/x" "/" w =
               (Ok (discovery.mkResponse None (map Ref.entry ["a"; "b"; "c"])), w))
    by reflexivity.
  assert (Hp : parseRoster Ref.env (map Ref.entry ["a"; "b"; "c"]) 2379 [] w =
               (Done nodes, w, [])) by (vm_compute; reflexivity).
  assert (Hs : targetSizeOf Ref.env "http://disco/x" 3 w = (Done (Ok 3), w, []))
    by reflexivity.
  assert (Hh : clusterExistingHeuristic Ref.env 3 (Some nodes) w =
               (Done (Some [], None), w, [])) by (vm_compute; reflexivity).
  split; [exact Hh|]. split.
  - exact (Join_dormant_cluster Ref.env 1 "http://disco/x" "n" "http://n:2380"
             true 2379 3 ReplaceStrategy w _ w nodes w [] 3 w [] w [] Hd Hp Hs Hh).
  - exact (Join_dormant_cluster Ref.env 1 "http://disco/x" "n" "http://n:2380"
             false 2379 3 ReplaceStrategy w _ w nodes w [] 3 w [] w [] Hd Hp Hs Hh).
Defined.

(** C9: the code at the failing input.  A discovery directory with a child
    that has no value, between two good entries, makes [Join] panic on the
    nil pointer; nothing is skipped and no configuration is emitted. *)
Theorem Join_panics_on_child_without_value :
  let w := Ref.mkWorld [] [] []
             [Ref.entry "a"; discovery.mkChild "/x" None; Ref.entry "b"] None in
  Join Ref.env 1 "http://disco/x" "n" "http://n:2380" true 2379 3 AddStrategy w =
    (Panic "nil pointer dereference", w, []).
Proof. vm_compute. reflexivity. Qed.

(** An entry that has a value and does not parse is left out of the
    roster, and [Join] goes on: here it bootstraps from the one good entry. *)
Example Join_skips_unparsable_entry :
  let w := Ref.mkWorld [] [] []
             [discovery.mkChild "/x" (Some "no separator"); Ref.entry "a"] None in
  parseRoster Ref.env (Ref.roster w) 2379 [] w = (Done [Ref.machine "a"], w, []) /\
  (Join Ref.env 1 "http://disco/x" "n" "http://n:2380" true 2379 3 AddStrategy w).1.1 =
    Done (Ok {| InitialCluster := [];
                InitialClusterState := "new";
                AdvertisePeerURLs := "http://n:2380";
                Discovery := "http://disco/x";
                ConfigName := "n" |}).
Proof. split; vm_compute; reflexivity. Qed.

(** C4: the code at the failing input.  The membership holds a reserved
    entry without peer URLs; [Add] recycles it and returns no URL, and the
    "existing" configuration that [Join] emits begins with the named URL
    of the active node [a], not with one of the joining node [n]. *)
Theorem Join_initial_cluster_without_own_url :
  let w := Ref.cluster [Ref.member "a"; Ref.member "b"; Ref.unstarted "id-0" []]
             ["a"; "b"] ["a"; "b"] in
  Join Ref.env 1 "http://disco/x" "n" "http://n:2380" true 2379 3 AddStrategy w =
    (Done (Ok {| InitialCluster := ["a=http://a:2380"; "b=http://b:2380"];
                 InitialClusterState := "existing";
                 AdvertisePeerURLs := "http://n:2380";
                 Discovery := "";
                 ConfigName := "n" |}), w, [CallList; CallList]) /\
  ~ namedBy "n" "a=http://a:2380".
Proof.
  split; [vm_compute; reflexivity|].
  intros [u Hu]. discriminate Hu.
Qed.

(** C10, as stated, fails.  The listing holds an unstarted member without
    peer URLs behind one that carries the caller's URL; [Add] recycles the
    first and returns its URL, not the empty list, and the initial cluster
    begins with the named URL of the joining node. *)
Lemma Add_recycles_the_first_matching_slot :
  let slot := Ref.unstarted "id-0" [] in
  let ms := [Ref.member "a"; Ref.member "b";
             Ref.unstarted "id-n" ["http://n:2380"]; slot] in
  let w := Ref.cluster ms ["a"; "b"] ["a"; "b"] in
  In slot ms /\
  client.Name slot = "" /\
  client.PeerURLs slot = [] /\
  mapi_List Ref.env (mapi (Ref.adder ["a"; "b"] AddStrategy 3)) w = (Ok ms, w) /\
  Add Ref.env (Ref.adder ["a"; "b"] AddStrategy 3) 1 "n" ["http://n:2380"] w =
    (Done (Ok ["http://n:2380"]), w, [CallList; CallList]) /\
  Join Ref.env 1 "http://disco/x" "n" "http://n:2380" true 2379 3 AddStrategy w =
    (Done (Ok {| InitialCluster :=
                   ["n=http://n:2380"; "a=http://a:2380"; "b=http://b:2380"];
                 InitialClusterState := "existing";
                 AdvertisePeerURLs := "http://n:2380";
                 Discovery := "";
                 ConfigName := "n" |}), w, [CallList; CallList]).
Proof.
  intros slot ms w. split; [right; right; right; left; reflexivity|].
  repeat split; vm_compute; reflexivity.
Qed.

(** The amended statement on the cluster of [a] and [b] with one reserved
    entry without peer URLs. *)
Lemma Join_recycles_slot_without_peer_urls_witness :
  let slot := Ref.unstarted "id-0" [] in
  let ms := [Ref.member "a"; Ref.member "b"; slot] in
  let w := Ref.cluster ms ["a"; "b"] ["a"; "b"] in
  let active := map Ref.machine ["a"; "b"] in
  let adv := "http://n:2380" in
  matchesUnstarted (splitComma adv) slot /\
  Add Ref.env (Ref.adder ["a"; "b"] AddStrategy 3) 1 "n" (splitComma adv) w =
    (Done (Ok []), w, [CallList; CallList]) /\
  Join Ref.env 1 "http://disco/x" "n" adv true 2379 3 AddStrategy w =
    (Done (Ok {| InitialCluster := namedURLsOf active;
                 InitialClusterState := "existing";
                 AdvertisePeerURLs := adv;
                 Discovery := "";
                 ConfigName := "n" |}), w, [CallList; CallList]) /\
  (hasSeparator "n" = false ->
   (forall n, In n active ->
      hasSeparator (client.Name (discovery.Member n)) = false /\
      client.Name (discovery.Member n) <> "n") ->
   forall first rest,
     namedURLsOf active = first :: rest -> ~ namedBy "n" first).
Proof.
  intros slot ms w active adv.
  refine (Join_recycles_slot_without_peer_urls Ref.env 1 "http://disco/x" "n"
            adv 2379 3 AddStrategy w
            (discovery.mkResponse None (map Ref.entry ["a"; "b"])) w
            active w [] 3 w [] active w []
            (Ref.adder ["a"; "b"] AddStrategy 3) ms w
            [Ref.member "a"; Ref.member "b"] slot [] w
            _ _ _ _ _ _ _ _ _ _ _ _ _).
  - reflexivity.
  - vm_compute. reflexivity.
  - reflexivity.
  - vm_compute. reflexivity.
  - discriminate.
  - discriminate.
  - vm_compute. reflexivity.
  - reflexivity.
  - reflexivity.
  - reflexivity.
  - reflexivity.
  - intros x [<-|[<-|[]]] [Hname _]; discriminate Hname.
  - vm_compute. reflexivity.
Defined.

(** The second run of the tool on the node that the first run registered
    changes nothing in the membership. *)
Example scenario_second_run :
  let w := Ref.cluster [Ref.member "a"; Ref.member "b";
                        Ref.unstarted "id-http://n:2380" ["http://n:2380"]]
             ["a"; "b"] ["a"; "b"] in
  Join Ref.env 1 "http://disco/x" "n" "http://n:2380" true 2379 3 AddStrategy w =
  (Done (Ok {| InitialCluster :=
                 ["n=http://n:2380"; "a=http://a:2380"; "b=http://b:2380"];
               InitialClusterState := "existing";
               AdvertisePeerURLs := "http://n:2380";
               Discovery := "";
               ConfigName := "n" |}), w, [CallList; CallList]).
Proof. vm_compute. reflexivity. Qed.

(** ** Further properties at work *)


Lemma Add_calls_outside_replace_and_prune_witness :
  let ma := Ref.adder ["a"; "b"] AddStrategy 3 in
  let w := Ref.cluster [Ref.member "a"; Ref.member "b"] ["a"; "b"] ["a"; "b"] in
  let urls := ["http://n:2380"] in
  strategy ma <> ReplaceStrategy /\
  strategy ma <> PruneStrategy /\
  Forall (fun c => isRemove c = false) (Add Ref.env ma 1 "n" urls w).2 /\
  ((Add Ref.env ma 1 "n" urls w).2 = [CallList] \/
   (Add Ref.env ma 1 "n" urls w).2 = [CallList; CallList] \/
   exists u0 rest,
     urls = u0 :: rest /\
     (Add Ref.env ma 1 "n" urls w).2 = [CallList; CallList; CallAdd u0]) /\
  (Add Ref.env ma 1 "n" urls w).1.1 <> OutOfFuel /\
  forall fuel', Add Ref.env ma fuel' "n" urls w = Add Ref.env ma 1 "n" urls w.
Proof.
  intros ma w urls.
  assert (H1 : strategy ma <> ReplaceStrategy) by discriminate.
  assert (H2 : strategy ma <> PruneStrategy) by discriminate.
  split; [exact H1|]. split; [exact H2|].
  exact (Add_calls_outside_replace_and_prune Ref.env ma 1 "n" urls w H1 H2).
Defined.

Lemma findUnstartedMember_urls_as_set_witness :
  let ms := [Ref.member "a"; Ref.unstarted "id-1" ["http://n:2380"]] in
  let urls := ["http://n:2380"; "http://n:7001"] in
  let urls' := ["http://n:7001"; "http://n:2380"; "http://n:7001"] in
  (forall u, In u urls <-> In u urls') /\
  findUnstartedMember ms urls = findUnstartedMember ms urls'.
Proof.
  intros ms urls urls'.
  assert (H : forall u, In u urls <-> In u urls') by (intros u; simpl; tauto).
  split; [exact H|].
  exact (findUnstartedMember_urls_as_set ms urls urls' H).
Defined.

(** The replace strategy on a cluster with one dead member [c]. *)
Lemma replace_removes_at_most_once_witness :
  let ma := Ref.adder ["a"; "b"] ReplaceStrategy 3 in
  let w := Ref.cluster [Ref.member "a"; Ref.member "b"; Ref.member "c"]
             ["a"; "b"] ["a"; "b"; "c"] in
  let urls := ["http://n:2380"] in
  strategy ma = ReplaceStrategy /\
  (Add Ref.env ma 1 "n" urls w).2 =
    [CallList; CallRemove "id-c"; CallList; CallAdd "http://n:2380"] /\
  ((Add Ref.env ma 1 "n" urls w).2 = [CallList] \/
   (Add Ref.env ma 1 "n" urls w).2 = [CallList; CallList] \/
   exists ms w0 m,
     mapi_List Ref.env (mapi ma) w = (Ok ms, w0) /\
     In m ms /\
     findUnstartedMember ms urls = None /\
     ((Add Ref.env ma 1 "n" urls w).2 = [CallList; CallRemove (client.ID m)] \/
      (Add Ref.env ma 1 "n" urls w).2 =
        [CallList; CallRemove (client.ID m); CallList] \/
      exists u0 rest,
        urls = u0 :: rest /\
        (Add Ref.env ma 1 "n" urls w).2 =
          [CallList; CallRemove (client.ID m); CallList; CallAdd u0])) /\
  (Add Ref.env ma 1 "n" urls w).1.1 <> OutOfFuel /\
  forall fuel', Add Ref.env ma fuel' "n" urls w = Add Ref.env ma 1 "n" urls w.
Proof.
  intros ma w urls.
  assert (Hs : strategy ma = ReplaceStrategy) by reflexivity.
  split; [exact Hs|]. split; [vm_compute; reflexivity|].
  exact (replace_removes_at_most_once Ref.env ma 1 "n" urls w Hs).
Defined.

(** The guard on three started members: it passes with all three healthy
    and refuses with one. *)
Lemma protectQuorum_majority_witness :
  let ms := [Ref.member "a"; Ref.member "b"; Ref.member "c"] in
  let ma := Ref.adder ["a"; "b"] AddStrategy 3 in
  let w := Ref.cluster ms ["a"; "b"; "c"] ["a"; "b"; "c"] in
  let obs := [true; true; true] in
  mapi_List Ref.env (mapi ma) w = (Ok ms, w) /\
  observeHealth Ref.env ms w = (Done obs, w, []) /\
  (protectQuorum Ref.env ma w = (Done None, w, [CallList]) <->
   startedCount ms + 1 < 2 * healthyCount obs) /\
  (protectQuorum Ref.env ma w = (Done None, w, [CallList]) ->
   1 <= healthyCount obs <= Z.of_nat (length ms)) /\
  (~ startedCount ms + 1 < 2 * healthyCount obs ->
   protectQuorum Ref.env ma w =
     (Done (Some (ErrQuorumAtRisk (startedCount ms) (healthyCount obs)
                    (Z.quot (startedCount ms + 1) 2 + 1))), w, [CallList])).
Proof.
  intros ms ma w obs.
  assert (HL : mapi_List Ref.env (mapi ma) w = (Ok ms, w)) by reflexivity.
  assert (Ho : observeHealth Ref.env ms w = (Done obs, w, []))
    by (vm_compute; reflexivity).
  split; [exact HL|]. split; [exact Ho|].
  exact (protectQuorum_majority Ref.env ma w ms w obs w HL Ho).
Defined.

(** A join on a healthy cluster of [a] and [b]: the entries of the
    initial cluster. *)
Lemma Join_initial_cluster_entries_witness :
  let w := Ref.cluster [Ref.member "a"; Ref.member "b"] ["a"; "b"] ["a"; "b"] in
  let w' := Ref.cluster [Ref.member "a"; Ref.member "b";
                         Ref.unstarted "id-http://n:2380" ["http://n:2380"]]
              ["a"; "b"] ["a"; "b"] in
  let cfg := {| InitialCluster :=
                  ["n=http://n:2380"; "a=http://a:2380"; "b=http://b:2380"];
                InitialClusterState := "existing";
                AdvertisePeerURLs := "http://n:2380";
                Discovery := "";
                ConfigName := "n" |} in
  Join Ref.env 1 "http://disco/x" "n" "http://n:2380" true 2379 3 AddStrategy w =
    (Done (Ok cfg), w', [CallList; CallList; CallAdd "http://n:2380"]) /\
  forall x, In x (InitialCluster cfg) ->
    (exists u, In u (splitComma "http://n:2380") /\ x = nameURL "n" u) \/
    (exists res w1 c v n,
       discovery_Value Ref.env "http://disco/x" "/" w = (Ok res, w1) /\
       In c (discovery.NodeNodes res) /\
       discovery.Value c = Some v /\
       NewDiscoveryNode Ref.env v 2379 = Ok n /\
       In x (discovery.NamedPeerURLs n)).
Proof.
  intros w w' cfg.
  assert (H : Join Ref.env 1 "http://disco/x" "n" "http://n:2380" true 2379 3
                AddStrategy w =
              (Done (Ok cfg), w', [CallList; CallList; CallAdd "http://n:2380"]))
    by (vm_compute; reflexivity).
  split; [exact H|].
  exact (Join_initial_cluster_entries Ref.env 1 "http://disco/x" "n"
           "http://n:2380" true 2379 3 AddStrategy w cfg w' _ H).
Defined.

(** With [clusterSize = 0] a fresh node does not join the healthy cluster
    of [a] and [b]: it is told to bootstrap a new one. *)
Lemma Join_unbounded_size_bootstraps_witness :
  let w := Ref.cluster [Ref.member "a"; Ref.member "b"] ["a"; "b"] ["a"; "b"] in
  let res := discovery.mkResponse None (map Ref.entry ["a"; "b"]) in
  discovery_Value Ref.env "http://disco/x" "/" w = (Ok res, w) /\
  (forall c, In c (discovery.NodeNodes res) -> discovery.Value c <> None) /\
  Z.of_nat (length (discovery.NodeNodes res)) < 2 ^ 62 /\
  exists w',
    Join Ref.env 1 "http://disco/x" "n" "http://n:2380" true 2379 0 AddStrategy w =
      (Done (Ok {| InitialCluster := [];
                   InitialClusterState := "new";
                   AdvertisePeerURLs := "http://n:2380";
                   Discovery := "http://disco/x";
                   ConfigName := "n" |}), w', []).
Proof.
  intros w res.
  assert (Hd : discovery_Value Ref.env "http://disco/x" "/" w = (Ok res, w))
    by reflexivity.
  assert (Hv : forall c, In c (discovery.NodeNodes res) ->
                         discovery.Value c <> None)
    by (intros c [<-|[<-|[]]]; discriminate).
  assert (Hlen : Z.of_nat (length (discovery.NodeNodes res)) < 2 ^ 62)
    by reflexivity.
  split; [exact Hd|]. split; [exact Hv|]. split; [exact Hlen|].
  exact (Join_unbounded_size_bootstraps Ref.env 1 "http://disco/x" "n"
           "http://n:2380" true 2379 AddStrategy w res w Hd Hv Hlen).
Defined.

Lemma Join_panics_only_on_nil_value_witness :
  let w := Ref.mkWorld [] [] []
             [Ref.entry "a"; discovery.mkChild "/x" None; Ref.entry "b"] None in
  Join Ref.env 1 "http://disco/x" "n" "http://n:2380" true 2379 3 AddStrategy w =
    (Panic "nil pointer dereference", w, []) /\
  "nil pointer dereference" = "nil pointer dereference" /\
  @nil Call = [] /\
  exists res w1,
    discovery_Value Ref.env "http://disco/x" "/" w = (Ok res, w1) /\
    ((w = w1 /\
      exists c, In c (discovery.NodeNodes res) /\ discovery.Value c = None) \/
     (3 < 0 /\
      exists res',
        discovery_Value Ref.env "http://disco/x" "/_config/size" w1 =
          (Ok res', w) /\
        discovery.NodeValue res' = None)).
Proof.
  intros w.
  assert (H : Join Ref.env 1 "http://disco/x" "n" "http://n:2380" true 2379 3
                AddStrategy w = (Panic "nil pointer dereference", w, []))
    by (vm_compute; reflexivity).
  split; [exact H|].
  exact (Join_panics_only_on_nil_value Ref.env 1 "http://disco/x" "n"
           "http://n:2380" true 2379 3 AddStrategy w _ w _ H).
Defined.

(** ** The reference environment has probes that only read *)

Lemma Ref_probes_read_only : readOnlyProbes Ref.env.
Proof.
  split.
  - intros u w. simpl. unfold Ref.httpGet. destruct (existsb _ _); reflexivity.
  - intros endpoints w. simpl. unfold Ref.leader.
    destruct (existsb _ _); reflexivity.
Qed.

Lemma Ref_removal_keeps_probes : removalKeepsProbes Ref.env.
Proof.
  intros endpoints id w. unfold sameProbes. simpl. unfold Ref.removeMember.
  destruct (existsb _ (Ref.members w)); split; intros;
    unfold Ref.httpGet, Ref.leader; simpl; destruct (existsb _ _); reflexivity.
Qed.

(** A roster of three of which only [a] is healthy, with a target of
    five: the heuristic reports [a]. *)
Lemma heuristic_reports_healthy_nodes_witness :
  let w := Ref.cluster [] ["a"] ["a"; "b"; "c"] in
  let ns := map Ref.machine ["a"; "b"; "c"] in
  readOnlyProbes Ref.env /\
  clusterExistingHeuristic Ref.env 5 (Some ns) w =
    (Done (Some [Ref.machine "a"], None), w, []) /\
  exists verdict,
    clusterExistingHeuristic Ref.env 5 (Some ns) w = (Done (verdict, None), w, []) /\
    (forall active,
       verdict = Some active ->
       Permutation active
         (filter (fun n => healthyIn Ref.env w (discovery.Member n) = true) ns) /\
       quorumOf 5 <= Z.of_nat (length ns) /\
       (Z.of_nat (length ns) = 5 \/ active <> [])) /\
    (verdict = None ->
     Z.of_nat (length ns) < quorumOf 5 \/
     (Z.of_nat (length ns) <> 5 /\
      forall n, In n ns -> healthyIn Ref.env w (discovery.Member n) = false)).
Proof.
  intros w ns. split; [exact Ref_probes_read_only|].
  split; [vm_compute; reflexivity|].
  exact (heuristic_reports_healthy_nodes Ref.env 5 ns w Ref_probes_read_only).
Defined.

(** Of the dead members [c] and [d] the first is selected. *)
Lemma removeDeadMember_selects_first_dead_witness :
  let ma := Ref.adder ["a"; "b"] ReplaceStrategy 4 in
  let ms := [Ref.member "a"; Ref.member "b"; Ref.member "c"; Ref.member "d"] in
  let w := Ref.cluster ms ["a"; "b"] ["a"; "b"] in
  readOnlyProbes Ref.env /\
  List.find (deadIn Ref.env (clientPort ma) w) ms = Some (Ref.member "c") /\
  searchForDead Ref.env ma ms w =
    (Done (List.find (deadIn Ref.env (clientPort ma) w) ms), w, []) /\
  (removeDeadMember Ref.env ma ms w).2 =
    match List.find (deadIn Ref.env (clientPort ma) w) ms with
    | Some m => [CallRemove (client.ID m)]
    | None => []
    end /\
  forall m u,
    List.find (deadIn Ref.env (clientPort ma) w) ms = Some m ->
    In u (client.PeerURLs m) ->
    exists n,
      NewDiscoveryNode Ref.env (client.Name m +:+ "=" +:+ u) (clientPort ma) =
        Ok n /\
      (existsb (answers Ref.env w) (client.PeerURLs (discovery.Member n)) =
         false \/
       leaderless Ref.env w (discovery.Member n) = true).
Proof.
  intros ma ms w. split; [exact Ref_probes_read_only|].
  split; [vm_compute; reflexivity|].
  exact (removeDeadMember_selects_first_dead Ref.env ma ms w
           Ref_probes_read_only).
Defined.

(** The prune strategy with the dead members [c] and [d]: both removals
    are removals of [c]. *)
Lemma Add_removes_one_member_witness :
  let ma := Ref.adder ["a"; "b"] PruneStrategy 4 in
  let w := Ref.cluster [Ref.member "a"; Ref.member "b"; Ref.member "c";
                        Ref.member "d"] ["a"; "b"] ["a"; "b"] in
  let urls := ["http://n:2380"] in
  readOnlyProbes Ref.env /\
  removalKeepsProbes Ref.env /\
  removedIDs (Add Ref.env ma 3 "n" urls w).2 = ["id-c"; "id-c"] /\
  (forall id,
     In (CallRemove id) (Add Ref.env ma 3 "n" urls w).2 ->
     exists ms w0 m,
       mapi_List Ref.env (mapi ma) w = (Ok ms, w0) /\
       List.find (deadIn Ref.env (clientPort ma) w0) ms = Some m /\
       id = client.ID m) /\
  (forall id1 id2,
     In (CallRemove id1) (Add Ref.env ma 3 "n" urls w).2 ->
     In (CallRemove id2) (Add Ref.env ma 3 "n" urls w).2 ->
     id1 = id2).
Proof.
  intros ma w urls. split; [exact Ref_probes_read_only|].
  split; [exact Ref_removal_keeps_probes|].
  split; [vm_compute; reflexivity|].
  exact (Add_removes_one_member Ref.env ma 3 "n" urls w
           Ref_probes_read_only Ref_removal_keeps_probes).
Defined.

(** A fresh node joins the healthy cluster of [a] and [b] under the add
    strategy. *)
Lemma Join_fresh_node_runs_Add_witness :
  let w := Ref.cluster [Ref.member "a"; Ref.member "b"] ["a"; "b"] ["a"; "b"] in
  let res := discovery.mkResponse None (map Ref.entry ["a"; "b"]) in
  let active := map Ref.machine ["a"; "b"] in
  let endpoints :=
    concat (map (fun n => client.ClientURLs (discovery.Member n)) active) in
  discovery_Value Ref.env "http://disco/x" "/" w = (Ok res, w) /\
  parseRoster Ref.env (discovery.NodeNodes res) 2379 [] w = (Done active, w, []) /\
  targetSizeOf Ref.env "http://disco/x" 3 w = (Done (Ok 3), w, []) /\
  clusterExistingHeuristic Ref.env 3 (Some active) w =
    (Done (Some active, None), w, []) /\
  active <> [] /\
  AddStrategy <> PreparedStrategy /\
  Join Ref.env 1 "http://disco/x" "n" "http://n:2380" true 2379 3 AddStrategy w =
    match client_New Ref.env endpoints with
    | Some err => (Done (Err err), w, [])
    | None =>
        match Add Ref.env (mkMemberAdder endpoints active AddStrategy 2379 3)
                1 "n" (splitComma "http://n:2380") w with
        | (Done (Ok urls'), w5, t) =>
            (Done (Ok {| InitialCluster :=
                           map (nameURL "n") urls' ++ namedURLsOf active;
                         InitialClusterState := "existing";
                         AdvertisePeerURLs := "http://n:2380";
                         Discovery := "";
                         ConfigName := "n" |}), w5, t)
        | (Done (Err e), w5, t) =>
            (Done (Err (ErrJoinFailed "n" "http://n:2380" e)), w5, t)
        | (Panic msg, w5, t) => (Panic msg, w5, t)
        | (OutOfFuel, w5, t) => (OutOfFuel, w5, t)
        end
    end.
Proof.
  intros w res active endpoints.
  assert (Hd : discovery_Value Ref.env "http://disco/x" "/" w = (Ok res, w))
    by reflexivity.
  assert (Hp : parseRoster Ref.env (discovery.NodeNodes res) 2379 [] w =
               (Done active, w, [])) by (vm_compute; reflexivity).
  assert (Hs : targetSizeOf Ref.env "http://disco/x" 3 w = (Done (Ok 3), w, []))
    by reflexivity.
  assert (Hh : clusterExistingHeuristic Ref.env 3 (Some active) w =
               (Done (Some active, None), w, [])) by (vm_compute; reflexivity).
  assert (Hact : active <> []) by discriminate.
  assert (Hstrat : AddStrategy <> PreparedStrategy) by discriminate.
  repeat (split; [assumption|]).
  exact (Join_fresh_node_runs_Add Ref.env 1 "http://disco/x" "n" "http://n:2380"
           2379 3 AddStrategy w res w active w [] 3 w [] active w []
           Hd Hp Hs Hh Hact Hstrat).
Defined.
